(** * Richardson-Lucy deconvolution (Signal/richardson_lucy.ipynb)

    A shallow embedding of the notebook's two functions, [convolve] and
    [RL_Deconvolve], and of the numpy operations they call.

    Conventions of the model.
    - A numpy array is a shape and a flat row-major buffer ([ndarray]); its
      elements are float64 numbers, here the primitive binary64 [float] with
      its rounding, overflow, signed zeros, infinities and NaN.
    - Python names are references into a heap of arrays; [np.rot90] returns a
      view, [*=] writes in place.  Library calls are recorded in a trace.
    - astropy's [convolve_fft] is not among the notebook's sources.  What the
      notebook relies on is modelled: the keyword arguments it is called
      with, the shape of what it returns, and that it fails with ValueError.
      The numbers it computes are left to a backend ([FFTBackend]), over
      which the statements about the notebook's code are universal.  One
      backend, [direct_backend], computes the periodic convolution by direct
      summation; the concrete examples are run with it. *)

From Stdlib Require Import ZArith Lia List Floats.
From stdpp Require Import gmap list numbers strings.

Local Open Scope nat_scope.

(** ** Array elements *)

Global Instance float_eq_dec : EqDecision float.
Proof.
  intros x y. destruct (PrimFloat.Leibniz.eqb x y) eqn:H.
  - left. now apply FloatAxioms.Leibniz.eqb_spec.
  - right. intros E. apply FloatAxioms.Leibniz.eqb_spec in E. congruence.
Defined.

Definition half : float := 0.5%float.

(** ** Arrays *)

Record ndarray : Type := NdArray { shape : nat * nat; data : list float }.

Global Instance ndarray_eq_dec : EqDecision ndarray.
Proof. solve_decision. Defined.

Definition rows (a : ndarray) : nat := fst (shape a).
Definition cols (a : ndarray) : nat := snd (shape a).

Definition wf (a : ndarray) : Prop := length (data a) = rows a * cols a.

Definition get (a : ndarray) (i j : nat) : float :=
  nth (i * cols a + j) (data a) nan.

Definition tabulate (sh : nat * nat) (f : nat -> nat -> float) : ndarray :=
  NdArray sh (map (fun k => f (k / snd sh) (k mod snd sh)) (seq 0 (fst sh * snd sh))).

Definition all_finite (a : ndarray) : Prop :=
  Forall (fun v => is_finite v = true) (data a).

(** ** Outcomes: a value or a raised exception *)

Inductive exn : Type :=
  | ValueError   (* numpy / astropy shape and value errors *)
  | Unbound.     (* a reference outside the heap; Python cannot produce one *)

Inductive outcome (A : Type) : Type :=
  | Ok (a : A)
  | Raise (e : exn).
Arguments Ok {A} a.
Arguments Raise {A} e.

Global Instance exn_eq_dec : EqDecision exn.
Proof. solve_decision. Defined.

Global Instance outcome_eq_dec {A} `{EqDecision A} : EqDecision (outcome A).
Proof. solve_decision. Defined.

Global Instance outcome_ret : MRet outcome := fun A a => Ok a.
Global Instance outcome_bind : MBind outcome := fun A B f o =>
  match o with
  | Ok a => f a
  | Raise e => Raise e
  end.

(** ** numpy operations on array values *)

(** [np.ones(shape)] *)
Definition np_ones (sh : nat * nat) : ndarray := tabulate sh (fun _ _ => 1%float).

(** [s * a] for a Python float [s]: a new array of [a]'s shape. *)
Definition scalar_mul (s : float) (a : ndarray) : ndarray :=
  NdArray (shape a) (map (PrimFloat.mul s) (data a)).

(** [np.flip(m, 0)] and [np.flip(m, 1)] *)
Definition flip0 (a : ndarray) : ndarray :=
  tabulate (shape a) (fun i j => get a (rows a - 1 - i) j).
Definition flip1 (a : ndarray) : ndarray :=
  tabulate (shape a) (fun i j => get a i (cols a - 1 - j)).

(** [np.rot90(m, 2)]: numpy computes it as [flip(flip(m, 0), 1)]. *)
Definition rot90_2 (a : ndarray) : ndarray := flip1 (flip0 a).

(** Broadcasting of one dimension: equal sizes, or one of them is 1. *)
Definition broadcast_dim (a b : nat) : outcome nat :=
  if a =? b then Ok a
  else if a =? 1 then Ok b
  else if b =? 1 then Ok a
  else Raise ValueError.

Definition broadcast_shape (s t : nat * nat) : outcome (nat * nat) :=
  h ← broadcast_dim (fst s) (fst t);
  w ← broadcast_dim (snd s) (snd t);
  Ok (h, w).

(** Reading a broadcast operand: an axis of size 1 is repeated. *)
Definition bget (a : ndarray) (i j : nat) : float :=
  get a (if rows a =? 1 then 0 else i) (if cols a =? 1 then 0 else j).

(** [a / b]: float64 division, which does not raise on a zero denominator
    (it yields an infinity or NaN, with a warning). *)
Definition np_divide (a b : ndarray) : outcome ndarray :=
  sh ← broadcast_shape (shape a) (shape b);
  Ok (tabulate sh (fun i j => (bget a i j / bget b i j)%float)).

(** [x *= c] computes into [x]'s buffer: the broadcast shape has to be
    [x]'s own shape, otherwise numpy raises ValueError. *)
Definition np_imul (x c : ndarray) : outcome ndarray :=
  sh ← broadcast_shape (shape x) (shape c);
  if decide (sh = shape x)
  then Ok (tabulate (shape x) (fun i j => (get x i j * bget c i j)%float))
  else Raise ValueError.

(** ** astropy.convolution.convolve_fft *)

(** The values of the keyword arguments [boundary] and [nan_treatment]. *)
Inductive boundary_mode : Type :=
  | BoundaryNone    (* boundary=None *)
  | BoundaryFill    (* boundary='fill' *)
  | BoundaryWrap.   (* boundary='wrap' *)

Inductive nan_mode : Type :=
  | NanInterpolate  (* nan_treatment='interpolate' *)
  | NanFill.        (* nan_treatment='fill' *)

Global Instance boundary_mode_eq_dec : EqDecision boundary_mode.
Proof. solve_decision. Defined.

Global Instance nan_mode_eq_dec : EqDecision nan_mode.
Proof. solve_decision. Defined.

(** What the library computes, which the notebook's sources do not show:
    - [rifft boundary nan_treatment normalize_kernel array kernel] is the
      real part of the inverse transform of the product of the two
      transforms, an array of the working shape given by its elements, or
      [None] where [convolve_fft] raises (its checks of the arguments, of
      the size and of the product raise ValueError, as does the transform of
      an array without elements);
    - [padded_shape] is the working shape when the arrays are padded
      ([boundary] other than ['wrap']). *)
Class FFTBackend : Type := {
  rifft : boundary_mode -> nan_mode -> bool -> ndarray -> ndarray ->
          option (nat -> nat -> float);
  padded_shape : nat * nat -> nat * nat -> nat * nat
}.

(** Without padding ([boundary='wrap']) the working shape is the larger of
    the two shapes, axis by axis. *)
Definition newshape (s t : nat * nat) : nat * nat :=
  (Nat.max (fst s) (fst t), Nat.max (snd s) (snd t)).

(** Start of the slice that centres an axis of size [dim] in one of size
    [newdim]: [center - dim // 2] with [center = newdim - (newdim + 1) // 2]. *)
Definition slice_start (newdim dim : nat) : nat :=
  (newdim - (newdim + 1) / 2) - dim / 2.

Section Library.
Context {L : FFTBackend}.

Definition working_shape (boundary : boundary_mode) (s t : nat * nat) : nat * nat :=
  match boundary with
  | BoundaryWrap => newshape s t
  | _ => padded_shape s t
  end.

(** [convolve_fft(array, kernel, boundary=, crop=, nan_treatment=,
    normalize_kernel=)]: with [crop=False] the whole working array is
    returned, with [crop=True] the slice of it that has the shape of
    [array]. *)
Definition convolve_fft (array kernel : ndarray) (boundary : boundary_mode)
    (crop : bool) (nan_treatment : nan_mode) (normalize_kernel : bool)
    : outcome ndarray :=
  match rifft boundary nan_treatment normalize_kernel array kernel with
  | None => Raise ValueError
  | Some r =>
      let ns := working_shape boundary (shape array) (shape kernel) in
      if crop
      then Ok (tabulate (shape array) (fun i j =>
                 r (slice_start (fst ns) (rows array) + i)
                   (slice_start (snd ns) (cols array) + j)))
      else Ok (tabulate ns r)
  end.

End Library.

(** ** The Python heap *)

Definition loc := positive.

(** An array object: it owns the buffer at [base], or is the view of it that
    [np.rot90(_, 2)] returns ([flipped]). *)
Record aref : Type := ARef { base : loc; flipped : bool }.

Inductive event : Type :=
  | EvRot90 (m : aref)
  | EvConvolveFFT (array kernel : ndarray) (boundary : boundary_mode)
      (crop : bool) (nan_treatment : nan_mode) (normalize_kernel : bool)
  | EvPrint (text : string).

Record world : Type := World { heap : gmap loc ndarray; trace : list event }.

Definition M (A : Type) : Type := world -> outcome A * world.

Global Instance M_ret : MRet M := fun A a w => (Ok a, w).
Global Instance M_bind : MBind M := fun A B f c w =>
  match c w with
  | (Ok a, w') => f a w'
  | (Raise e, w') => (Raise e, w')
  end.

Definition lift {A} (o : outcome A) : M A := fun w => (o, w).

Definition log (e : event) : M unit :=
  fun w => (Ok tt, World (heap w) (trace w ++ [e])).

Definition view (r : aref) (a : ndarray) : ndarray :=
  if flipped r then rot90_2 a else a.

Definition value_of (r : aref) (w : world) : option ndarray :=
  view r <$> heap w !! base r.

(** Reading the array a name refers to. *)
Definition load (r : aref) : M ndarray := fun w =>
  match value_of r w with
  | Some a => (Ok a, w)
  | None => (Raise Unbound, w)
  end.

(** Overwriting the elements of an array object in place. *)
Definition store (r : aref) (a : ndarray) : M unit := fun w =>
  (Ok tt, World (<[base r := view r a]> (heap w)) (trace w)).

(** A new array object. *)
Definition alloc (a : ndarray) : M aref := fun w =>
  let l := fresh (dom (heap w)) in
  (Ok (ARef l false), World (<[l := a]> (heap w)) (trace w)).

(** [print(...)], used by the notebook's reporting cells. *)
Definition py_print (text : string) : M unit := log (EvPrint text).

(** [np.rot90(m, 2)] returns a view of [m]. *)
Definition np_rot90_2 (m : aref) : M aref :=
  _ ← log (EvRot90 m);
  mret (ARef (base m) (negb (flipped m))).

(** [range(n)] and the [for] loop over a list. *)
Definition py_range (n : Z) : list Z := map Z.of_nat (seq 0 (Z.to_nat n)).

Fixpoint for_each {A} (xs : list A) (body : A -> M unit) : M unit :=
  match xs with
  | [] => mret tt
  | x :: xs' => _ ← body x; for_each xs' body
  end.

(** ** The notebook's functions *)

Section Notebook.
Context {L : FFTBackend}.

(** The call of the library function, recorded with its arguments. *)
Definition call_convolve_fft (array kernel : ndarray) (boundary : boundary_mode)
    (crop : bool) (nan_treatment : nan_mode) (normalize_kernel : bool)
    : M ndarray :=
  _ ← log (EvConvolveFFT array kernel boundary crop nan_treatment normalize_kernel);
  lift (convolve_fft array kernel boundary crop nan_treatment normalize_kernel).

(** [def convolve(image, kernel):
       return convolve_fft(image, kernel, boundary='wrap', crop=False,
                           nan_treatment='fill', normalize_kernel=False)] *)
Definition convolve (image kernel : ndarray) : M ndarray :=
  call_convolve_fft image kernel BoundaryWrap false NanFill false.

(** [x_hat *= convolve(image / convolve(x_hat, psf), psf_rot)] *)
Definition RL_step (image psf psf_rot x_hat : aref) : M unit :=
  iv ← load image;
  xv ← load x_hat;
  pv ← load psf;
  blurred ← convolve xv pv;
  ratio ← lift (np_divide iv blurred);
  rv ← load psf_rot;
  correction ← convolve ratio rv;
  xv' ← load x_hat;
  new ← lift (np_imul xv' correction);
  store x_hat new.

(** [def RL_Deconvolve(image, psf, n_iter=30):
       x_hat = 0.5 * np.ones(image.shape)
       psf_rot = np.rot90(psf, 2)
       for i in range(n_iter):
           x_hat *= convolve(image / convolve(x_hat, psf), psf_rot)
       return x_hat] *)
Definition RL_Deconvolve (image psf : aref) (n_iter : Z) : M aref :=
  iv ← load image;
  x_hat ← alloc (scalar_mul half (np_ones (shape iv)));
  psf_rot ← np_rot90_2 psf;
  _ ← for_each (py_range n_iter) (fun i => RL_step image psf psf_rot x_hat);
  mret x_hat.

End Notebook.

(** The array a call returns, read after the call. *)
Definition returned (c : M aref) (w : world) : outcome ndarray :=
  match c w with
  | (Ok r, w') => fst (load r w')
  | (Raise e, _) => Raise e
  end.

(** ** The specification's [deconvolve]

    Written after the specification's section 4.1, with operations of its
    own: they are compared with the notebook's code by the theorems. *)

(** A flat array: every element is [c]. *)
Definition flat (sh : nat * nat) (c : float) : ndarray := tabulate sh (fun _ _ => c).

(** Step 1: the array of [observed]'s shape with every element 0.5. *)
Definition initial_estimate (observed : ndarray) : ndarray :=
  flat (shape observed) half.

(** Step 2: the kernel reversed along both axes. *)
Definition reversed (kernel : ndarray) : ndarray :=
  tabulate (shape kernel) (fun i j =>
    get kernel (rows kernel - 1 - i) (cols kernel - 1 - j)).

(** Two axis lengths that go together: the same length, or one of them is 1
    (that axis is then repeated). *)
Definition common_length (m n : nat) : option nat :=
  if decide (m = n) then Some m
  else if decide (m = 1) then Some n
  else if decide (n = 1) then Some m
  else None.

(** An operation applied element by element; shapes that do not go together
    are an error. *)
Definition elementwise (op : float -> float -> float) (a b : ndarray)
    : outcome ndarray :=
  match common_length (rows a) (rows b), common_length (cols a) (cols b) with
  | Some h, Some w =>
      Ok (tabulate (h, w) (fun i j =>
            op (get a (i mod rows a) (j mod cols a))
               (get b (i mod rows b) (j mod cols b))))
  | _, _ => Raise ValueError
  end.

(** An operation applied element by element in place: the result has to
    have the shape of the array it is written to. *)
Definition elementwise_in_place (op : float -> float -> float) (x c : ndarray)
    : outcome ndarray :=
  r ← elementwise op x c;
  if decide (shape r = shape x) then Ok r else Raise ValueError.

Section Specification.
Context {L : FFTBackend}.

(** Steps 3a and 3c: the convolution primitive, FFT-based, with wrap-around
    (periodic) boundary, no output cropping, NaNs replaced with a fill
    value, and no kernel renormalization. *)
Definition conv (image kernel : ndarray) : outcome ndarray :=
  convolve_fft image kernel BoundaryWrap false NanFill false.

(** Step 3: one update,
    [estimate <- estimate * conv(observed / conv(estimate, kernel), kernel_flipped)]. *)
Definition update (observed kernel kernel_flipped estimate : ndarray)
    : outcome ndarray :=
  blurred_estimate ← conv estimate kernel;
  ratio ← elementwise PrimFloat.div observed blurred_estimate;
  correction ← conv ratio kernel_flipped;
  elementwise_in_place PrimFloat.mul estimate correction.

Definition deconvolve (observed kernel : ndarray) (iterations : nat)
    : outcome ndarray :=
  Nat.iter iterations
    (fun estimate => estimate ≫= update observed kernel (reversed kernel))
    (Ok (initial_estimate observed)).

End Specification.

(** ** The loop, run on array values

    [step_value] is the value [RL_step] computes with numpy's operations,
    [step_events] the library calls it makes; [loop_pure k est] runs [k]
    iterations from the estimate [est]: the outcome, the content of the
    working array when the loop stops, and the library calls made. *)

Section Loop.
Context {L : FFTBackend}.
Variables observed kernel kernel_flipped : ndarray.

Definition step_value (estimate : ndarray) : outcome ndarray :=
  blurred ← convolve_fft estimate kernel BoundaryWrap false NanFill false;
  ratio ← np_divide observed blurred;
  correction ← convolve_fft ratio kernel_flipped BoundaryWrap false NanFill false;
  np_imul estimate correction.

Definition step_events (estimate : ndarray) : list event :=
  EvConvolveFFT estimate kernel BoundaryWrap false NanFill false ::
  match convolve_fft estimate kernel BoundaryWrap false NanFill false
        ≫= np_divide observed with
  | Ok ratio => [EvConvolveFFT ratio kernel_flipped BoundaryWrap false NanFill false]
  | Raise _ => []
  end.

Fixpoint loop_pure (k : nat) (estimate : ndarray)
    : outcome ndarray * ndarray * list event :=
  match k with
  | 0 => (Ok estimate, estimate, [])
  | S k' =>
      match step_value estimate with
      | Ok new =>
          let '(o, content, evs) := loop_pure k' new in
          (o, content, step_events estimate ++ evs)
      | Raise e => (Raise e, estimate, step_events estimate)
      end
  end.
End Loop.

(** The view [np.rot90(psf, 2)] returns. *)
Definition rot_ref (m : aref) : aref := ARef (base m) (negb (flipped m)).

(** Every array of the heap is a numpy array: its buffer has as many
    elements as its shape says. *)
Definition heap_wf (w : world) : Prop :=
  map_Forall (fun _ a => wf a) (heap w).

Global Instance wf_dec (a : ndarray) : Decision (wf a).
Proof. unfold wf. apply _. Defined.

Global Instance heap_wf_dec (w : world) : Decision (heap_wf w).
Proof. unfold heap_wf. apply _. Defined.

(** ** Vocabulary of the claims *)

(** The kernel a traced library call convolves with. *)
Definition kernel_used (e : event) : option ndarray :=
  match e with
  | EvConvolveFFT _ k _ _ _ _ => Some k
  | _ => None
  end.

(** The keyword arguments of a traced library call. *)
Definition keywords (e : event) : option (boundary_mode * bool * nan_mode * bool) :=
  match e with
  | EvConvolveFFT _ _ b c n k => Some (b, c, n, k)
  | _ => None
  end.

Definition is_rot90 (e : event) : bool :=
  match e with EvRot90 _ => true | _ => false end.

Definition is_print (e : event) : bool :=
  match e with EvPrint _ => true | _ => false end.

(** The events a call appends to the trace. *)
Definition new_events (w w' : world) : list event :=
  drop (length (trace w)) (trace w').

(** The identity kernel of a given shape: a single 1 at the centre element
    [(h // 2, w // 2)]. *)
Definition identity_kernel (sh : nat * nat) : ndarray :=
  tabulate sh (fun i j =>
    if (i =? fst sh / 2) && (j =? snd sh / 2) then 1%float else 0%float).

(** What [nan_treatment='fill'] makes of an element: NaN and the infinities
    are replaced by the fill value, 0 by default. *)
Definition filled (v : float) : float := if is_finite v then v else 0%float.

Definition nan_filled (a : ndarray) : ndarray :=
  tabulate (shape a) (fun i j => filled (get a i j)).

(** The plain element-wise quotient of two arrays of one shape. *)
Definition quotient (a b : ndarray) : ndarray :=
  tabulate (shape a) (fun i j => (get a i j / get b i j)%float).

(** Convolving [a] with [k] changes nothing, but for the elements that
    [nan_treatment='fill'] replaces: the convolution is computed exactly and
    is the identity on [a]. *)
Definition unchanged_by `{L : FFTBackend} (k a : ndarray) : Prop :=
  conv a k = Ok (nan_filled a).

(** An array given by its elements, for concrete inputs. *)
Definition of_list (sh : nat * nat) (l : list float) : ndarray := NdArray sh l.

(** A heap holding an image at 1 and a kernel at 2. *)
Definition world_of (image kernel : ndarray) : world :=
  World (<[2%positive := kernel]> (<[1%positive := image]> ∅)) [].

Definition image_ref : aref := ARef 1%positive false.
Definition psf_ref : aref := ARef 2%positive false.

(** ** A backend by direct summation *)

(** The array as the convolution sees it, centred in the working shape:
    its NaN and infinite elements replaced by 0, and 0 around it. *)
Definition centred (ns : nat * nat) (a : ndarray) (i j : nat) : float :=
  let oi := slice_start (fst ns) (rows a) in
  let oj := slice_start (snd ns) (cols a) in
  if (oi <=? i) && (i <? oi + rows a) && (oj <=? j) && (j <? oj + cols a)
  then filled (get a (i - oi) (j - oj))
  else 0%float.

(** [np.fft.ifftshift]: every axis rolled by [-(n // 2)], so that the
    centre element [n // 2] of the kernel comes first. *)
Definition ifftshift (ns : nat * nat) (k : nat -> nat -> float) (i j : nat) : float :=
  k ((i + fst ns / 2) mod fst ns) ((j + snd ns / 2) mod snd ns).

(** The float64 sum of a list, from left to right. *)
Definition float_sum (l : list float) : float :=
  match l with
  | [] => 0%float
  | x :: l' => fold_left PrimFloat.add l' x
  end.

(** The periodic convolution of [a] and [k] at [(i, j)], summed row by row. *)
Definition periodic_convolution (ns : nat * nat) (a k : nat -> nat -> float)
    (i j : nat) : float :=
  float_sum
    (flat_map (fun p =>
       map (fun q =>
              (a p q * k ((i + fst ns - p) mod fst ns) ((j + snd ns - q) mod snd ns))%float)
           (seq 0 (snd ns)))
       (seq 0 (fst ns))).

(** Modelled from the spec: the convolution primitive of section 4.1, which
    is astropy's [convolve_fft] and is not among the notebook's sources:
    linear, shift-invariant convolution with wrap boundary and no kernel
    renormalization, NaNs (and infinities) replaced by the fill value 0
    before convolving.  The sums are taken directly, in float64; the library
    takes them by fast Fourier transforms, which round differently, and it
    raises ValueError where a transform overflows.  The two agree where
    nothing is rounded, as on arrays of one element.  As in the library, an
    array without elements cannot be transformed.  The other keyword
    arguments are not modelled. *)
Definition direct_rifft (boundary : boundary_mode) (nan_treatment : nan_mode)
    (normalize_kernel : bool) (array kernel : ndarray)
    : option (nat -> nat -> float) :=
  match boundary, nan_treatment, normalize_kernel with
  | BoundaryWrap, NanFill, false =>
      let ns := newshape (shape array) (shape kernel) in
      if (fst ns =? 0) || (snd ns =? 0) then None
      else Some (periodic_convolution ns (centred ns array)
                   (ifftshift ns (centred ns kernel)))
  | _, _, _ => None
  end.

Definition direct_backend : FFTBackend :=
  {| rifft := direct_rifft;
     padded_shape := fun s t => (fst s + fst t, snd s + snd t) |}.

(** ** Concrete arrays of the examples *)

(** The single-pixel image [[4]] and kernel [[1]]. *)
Definition A4 : ndarray := of_list (1, 1) [4%float].
Definition K1 : ndarray := of_list (1, 1) [1%float].

(** An image of two pixels and the two-element kernel with its 1 left of the
    centre element: convolving with it shifts the image by one pixel, round
    the edge; convolving with the rotated kernel, [[0, 1]], changes
    nothing. *)
Definition pair12 : ndarray := of_list (1, 2) [1; 2]%float.
Definition left_impulse : ndarray := of_list (1, 2) [1; 0]%float.

(** Single pixels: zero, NaN, and the largest power of two; the kernel [[4]]. *)
Definition A0 : ndarray := of_list (1, 1) [0%float].
Definition Anan : ndarray := of_list (1, 1) [nan].
Definition Ahuge : ndarray := of_list (1, 1) [0x1p1023%float].
Definition K4 : ndarray := of_list (1, 1) [4%float].

(** A 2x2 image, the 3x3 box averaging kernel [np.ones((3, 3)) / 9], and the
    two-element averaging kernel. *)
Definition square22 : ndarray := of_list (2, 2) [1; 2; 3; 4]%float.
Definition box3 : ndarray := of_list (3, 3) (repeat (1 / 9)%float 9).
Definition mean2 : ndarray := of_list (1, 2) [0.5; 0.5]%float.

(** * Lemmas *)

(** ** Basic facts about arrays *)

Lemma wf_tabulate sh f : wf (tabulate sh f).
Proof.
  unfold wf, rows, cols, tabulate. simpl.
  now rewrite length_map, length_seq.
Qed.

Lemma get_tabulate sh f i j :
  i < fst sh -> j < snd sh -> get (tabulate sh f) i j = f i j.
Proof.
  intros Hi Hj. unfold get, cols, tabulate. simpl.
  assert (Hlt : i * snd sh + j < fst sh * snd sh) by nia.
  set (g := fun k => f (k / snd sh) (k mod snd sh)).
  rewrite (nth_indep _ nan (g 0)) by now rewrite length_map, length_seq.
  rewrite (map_nth g _ 0), seq_nth by exact Hlt.
  unfold g. simpl.
  rewrite <- (Nat.div_unique (i * snd sh + j) (snd sh) i j) by lia.
  now rewrite <- (Nat.mod_unique (i * snd sh + j) (snd sh) i j) by lia.
Qed.

Lemma ndarray_ext (a b : ndarray) :
  wf a -> wf b -> shape a = shape b ->
  (forall i j, i < rows a -> j < cols a -> get a i j = get b i j) ->
  a = b.
Proof.
  destruct a as [[h w] da], b as [[h' w'] db].
  unfold wf, get, rows, cols. simpl.
  intros Ha Hb Hs Hget. inversion Hs; subst h' w'. f_equal.
  apply (nth_ext _ _ nan nan); [congruence|].
  intros k Hk. rewrite Ha in Hk.
  assert (Hw : 0 < w) by nia.
  specialize (Hget (k / w) (k mod w)). simpl in Hget.
  replace (k / w * w + k mod w) with k in Hget
    by (rewrite (Nat.div_mod_eq k w) at 1; lia).
  apply Hget.
  - apply Nat.Div0.div_lt_upper_bound. lia.
  - apply Nat.mod_upper_bound. lia.
Qed.

Lemma tabulate_ext (sh : nat * nat) (f g : nat -> nat -> float) :
  (forall i j, i < fst sh -> j < snd sh -> f i j = g i j) ->
  tabulate sh f = tabulate sh g.
Proof.
  intros Hfg. unfold tabulate. f_equal. apply map_ext_in.
  intros k Hk. apply in_seq in Hk.
  assert (0 < snd sh) by nia.
  apply Hfg.
  - apply Nat.Div0.div_lt_upper_bound. lia.
  - apply Nat.mod_upper_bound. lia.
Qed.

Lemma tabulate_get (a : ndarray) :
  wf a -> tabulate (shape a) (get a) = a.
Proof.
  intros Hwf. apply ndarray_ext; [apply wf_tabulate | exact Hwf | reflexivity |].
  intros i j Hi Hj. now apply get_tabulate.
Qed.

Lemma shape_eta (a : ndarray) : (rows a, cols a) = shape a.
Proof. unfold rows, cols. now destruct (shape a). Qed.

Lemma get_flat (sh : nat * nat) (c : float) (i j : nat) :
  i < fst sh -> j < snd sh -> get (flat sh c) i j = c.
Proof. intros Hi Hj. unfold flat. now rewrite get_tabulate. Qed.

Lemma scalar_mul_half_ones (sh : nat * nat) :
  scalar_mul half (np_ones sh) = flat sh half.
Proof.
  unfold scalar_mul, np_ones, flat, tabulate. simpl. f_equal.
  rewrite map_map. now apply map_ext.
Qed.

(** ** Rotation by 180 degrees *)

Lemma wf_rot90_2 (a : ndarray) : wf (rot90_2 a).
Proof. apply wf_tabulate. Qed.

Lemma get_rot90_2 (a : ndarray) (i j : nat) :
  i < rows a -> j < cols a ->
  get (rot90_2 a) i j = get a (rows a - 1 - i) (cols a - 1 - j).
Proof.
  intros Hi Hj. unfold rot90_2, flip1.
  rewrite get_tabulate by (unfold flip0; simpl; unfold rows, cols in *; lia).
  unfold flip0 at 1.
  rewrite get_tabulate;
    unfold flip0, rows, cols in *; simpl; try lia.
  reflexivity.
Qed.

(** numpy's two flips turn the array around: the element at [(i, j)] of the
    rotated array is the one at [(rows - 1 - i, cols - 1 - j)]. *)
Lemma rot90_2_reversed (a : ndarray) : rot90_2 a = reversed a.
Proof.
  unfold reversed. change (rot90_2 a) with (flip1 (flip0 a)). unfold flip1 at 1.
  change (shape (flip0 a)) with (shape a).
  apply tabulate_ext. intros i j Hi Hj.
  change (cols (flip0 a)) with (cols a). unfold flip0.
  rewrite get_tabulate; [reflexivity | exact Hi | unfold cols; lia].
Qed.

Lemma rot90_2_involutive (a : ndarray) : wf a -> rot90_2 (rot90_2 a) = a.
Proof.
  intros Hwf. apply ndarray_ext; [apply wf_rot90_2 | exact Hwf | reflexivity |].
  intros i j Hi Hj.
  change (rows (rot90_2 (rot90_2 a))) with (rows a) in Hi.
  change (cols (rot90_2 (rot90_2 a))) with (cols a) in Hj.
  rewrite get_rot90_2 by (exact Hi || exact Hj).
  change (rows (rot90_2 a)) with (rows a).
  change (cols (rot90_2 a)) with (cols a).
  rewrite get_rot90_2 by lia.
  f_equal; lia.
Qed.

(** ** numpy's element-wise operations against the specification's *)

Lemma broadcast_common (m n : nat) :
  broadcast_dim m n =
  match common_length m n with Some h => Ok h | None => Raise ValueError end.
Proof.
  unfold broadcast_dim, common_length.
  destruct (Nat.eqb_spec m n), (decide (m = n)); try lia; try reflexivity.
  destruct (Nat.eqb_spec m 1), (decide (m = 1)); try lia; try reflexivity.
  destruct (Nat.eqb_spec n 1), (decide (n = 1)); try lia; reflexivity.
Qed.

Lemma common_length_index (m n h i : nat) :
  common_length m n = Some h -> i < h ->
  (if m =? 1 then 0 else i) = i mod m /\ (if n =? 1 then 0 else i) = i mod n.
Proof.
  unfold common_length. intros Hc Hi.
  destruct (Nat.eqb_spec m 1) as [->|Hm], (Nat.eqb_spec n 1) as [->|Hn];
    repeat (destruct (decide _) in Hc); simplify_eq;
    rewrite ?Nat.mod_1_r, ?Nat.mod_small by lia; split; (reflexivity || lia).
Qed.

Lemma np_divide_elementwise (a b : ndarray) :
  np_divide a b = elementwise PrimFloat.div a b.
Proof.
  unfold np_divide, elementwise, broadcast_shape. cbn [fst snd].
  fold (rows a) (rows b) (cols a) (cols b).
  rewrite !broadcast_common.
  destruct (common_length (rows a) (rows b)) as [h|] eqn:Hh; [|reflexivity].
  cbn [mbind outcome_bind].
  destruct (common_length (cols a) (cols b)) as [w|] eqn:Hw; [|reflexivity].
  cbn [mbind outcome_bind]. f_equal. apply tabulate_ext. cbn [fst snd].
  intros i j Hi Hj. unfold bget.
  destruct (common_length_index _ _ _ i Hh Hi) as [-> ->].
  now destruct (common_length_index _ _ _ j Hw Hj) as [-> ->].
Qed.

Lemma np_imul_elementwise (x c : ndarray) :
  np_imul x c = elementwise_in_place PrimFloat.mul x c.
Proof.
  unfold np_imul, elementwise_in_place, elementwise, broadcast_shape. cbn [fst snd].
  fold (rows x) (rows c) (cols x) (cols c).
  rewrite !broadcast_common.
  destruct (common_length (rows x) (rows c)) as [h|] eqn:Hh; [|reflexivity].
  cbn [mbind outcome_bind].
  destruct (common_length (cols x) (cols c)) as [w|] eqn:Hw; [|reflexivity].
  cbn [mbind outcome_bind]. unfold tabulate at 2. cbn [shape].
  destruct (decide ((h, w) = shape x)) as [Hs|Hs]; [|reflexivity].
  rewrite <- Hs. f_equal. apply tabulate_ext. cbn [fst snd].
  intros i j Hi Hj. unfold bget.
  assert (rows x = h /\ cols x = w) as [Hr Hc]
    by (unfold rows, cols; rewrite <- Hs; now split).
  destruct (common_length_index _ _ _ i Hh Hi) as [_ ->].
  destruct (common_length_index _ _ _ j Hw Hj) as [_ ->].
  now rewrite Hr, Hc, (Nat.mod_small i h), (Nat.mod_small j w) by lia.
Qed.

(** ** Running the monadic code *)

Lemma value_of_insert_ne (r : aref) (l : loc) (a : ndarray) (w : world) tr :
  l ≠ base r ->
  value_of r (World (<[l := a]> (heap w)) tr) = value_of r w.
Proof.
  intros Hne. unfold value_of. simpl. now rewrite lookup_insert_ne.
Qed.

Lemma value_of_insert_eq (l : loc) (a : ndarray) (h : gmap loc ndarray) tr :
  value_of (ARef l false) (World (<[l := a]> h) tr) = Some a.
Proof.
  unfold value_of. simpl. now rewrite lookup_insert_eq.
Qed.

Lemma value_of_trace (r : aref) (h : gmap loc ndarray) tr tr' :
  value_of r (World h tr) = value_of r (World h tr').
Proof. reflexivity. Qed.

Lemma value_of_base_some (r : aref) (w : world) (a : ndarray) :
  value_of r w = Some a -> base r ∈ dom (heap w).
Proof.
  unfold value_of. intros H. apply elem_of_dom.
  destruct (heap w !! base r); [eauto | discriminate].
Qed.

Lemma value_of_insert_fresh (r : aref) (w : world) (a b : ndarray) tr :
  value_of r w = Some a ->
  value_of r (World (<[fresh (dom (heap w)) := b]> (heap w)) tr) = Some a.
Proof.
  intros Hr. rewrite value_of_insert_ne; [exact Hr|].
  intros Heq. apply (is_fresh (dom (heap w))). rewrite Heq.
  eapply value_of_base_some, Hr.
Qed.

Lemma value_of_wf (r : aref) (w : world) (a : ndarray) :
  heap_wf w -> value_of r w = Some a -> wf a.
Proof.
  unfold value_of, view. intros Hwf.
  destruct (heap w !! base r) as [b|] eqn:Hb; [|discriminate].
  simpl. intros [= <-].
  destruct (flipped r); [apply wf_rot90_2 | exact (Hwf _ _ Hb)].
Qed.

Lemma value_of_rot_ref (psf : aref) (w : world) (ker : ndarray) :
  heap_wf w ->
  value_of psf w = Some ker ->
  value_of (rot_ref psf) w = Some (rot90_2 ker).
Proof.
  unfold value_of, rot_ref, view. simpl. intros Hwf.
  destruct (heap w !! base psf) as [a|] eqn:Ha; [|discriminate].
  simpl. intros [= <-].
  destruct (flipped psf); simpl; [|reflexivity].
  now rewrite rot90_2_involutive by eauto.
Qed.

Lemma value_of_rot_ref_some (psf : aref) (w : world) (ker : ndarray) :
  value_of psf w = Some ker -> exists kerf, value_of (rot_ref psf) w = Some kerf.
Proof.
  unfold value_of, rot_ref. simpl.
  destruct (heap w !! base psf) as [a|]; [|discriminate].
  intros _. simpl. eauto.
Qed.

Lemma run_bind {A B} (c : M A) (f : A -> M B) (w : world) :
  (c ≫= f) w =
  match c w with
  | (Ok a, w') => f a w'
  | (Raise e, w') => (Raise e, w')
  end.
Proof. reflexivity. Qed.

Lemma length_py_range (n : Z) : length (py_range n) = Z.to_nat n.
Proof. unfold py_range. now rewrite length_map, length_seq. Qed.

Lemma py_range_nonpos (n : Z) : (n <= 0)%Z -> py_range n = [].
Proof.
  intros Hn. unfold py_range.
  replace (Z.to_nat n) with 0 by lia. reflexivity.
Qed.

Lemma new_events_app (h h' : gmap loc ndarray) (tr evs : list event) :
  new_events (World h tr) (World h' (tr ++ evs)) = evs.
Proof. unfold new_events. simpl. now rewrite drop_app_length. Qed.

Section Running.
Context {L : FFTBackend}.

Lemma RL_step_run (image psf psf_rot : aref) (l : loc) (w : world)
    (obs ker kerf est : ndarray) :
  value_of image w = Some obs ->
  value_of psf w = Some ker ->
  value_of psf_rot w = Some kerf ->
  heap w !! l = Some est ->
  RL_step image psf psf_rot (ARef l false) w =
  match step_value obs ker kerf est with
  | Ok new =>
      (Ok tt, World (<[l := new]> (heap w)) (trace w ++ step_events obs ker kerf est))
  | Raise e =>
      (Raise e, World (heap w) (trace w ++ step_events obs ker kerf est))
  end.
Proof.
  intros Hi Hp Hr Hx.
  assert (Hxv : value_of (ARef l false) w = Some est)
    by (unfold value_of; simpl; now rewrite Hx).
  destruct w as [h tr]. simpl in *.
  unfold RL_step, step_value, step_events, convolve, call_convolve_fft, log, lift,
    load, store, mbind, M_bind, outcome_bind. simpl.
  rewrite Hi. simpl. rewrite Hxv. simpl. rewrite Hp. simpl.
  destruct (convolve_fft est ker _ _ _ _) as [b|e]; simpl; [|reflexivity].
  destruct (np_divide obs b) as [r|e]; simpl; [|reflexivity].
  rewrite (value_of_trace _ h _ tr), Hr. simpl.
  rewrite <- app_assoc. simpl.
  destruct (convolve_fft r kerf _ _ _ _) as [c|e]; simpl; [|reflexivity].
  rewrite (value_of_trace _ h _ tr), Hxv. simpl.
  destruct (np_imul est c) as [new|e]; reflexivity.
Qed.

Lemma for_each_RL_step (image psf psf_rot : aref) (l : loc)
    (obs ker kerf : ndarray) (xs : list Z) :
  l ≠ base image -> l ≠ base psf -> l ≠ base psf_rot ->
  forall (w : world) (est : ndarray),
  value_of image w = Some obs ->
  value_of psf w = Some ker ->
  value_of psf_rot w = Some kerf ->
  heap w !! l = Some est ->
  for_each xs (fun _ => RL_step image psf psf_rot (ARef l false)) w =
  let '(o, content, evs) := loop_pure obs ker kerf (length xs) est in
  (o ≫= (fun _ => Ok tt), World (<[l := content]> (heap w)) (trace w ++ evs)).
Proof.
  intros Hli Hlp Hlr.
  induction xs as [|x xs IH]; intros w est Hi Hp Hr Hx; simpl.
  - destruct w as [h tr]. unfold mret, M_ret. simpl in *.
    now rewrite insert_id, app_nil_r.
  - unfold mbind at 1, M_bind at 1.
    rewrite (RL_step_run image psf psf_rot l w obs ker kerf est Hi Hp Hr Hx).
    destruct (step_value obs ker kerf est) as [new|e].
    + rewrite (IH _ new); simpl.
      * destruct (loop_pure obs ker kerf (length xs) new) as [[o content] evs].
        now rewrite insert_insert_eq, <- app_assoc.
      * now rewrite value_of_insert_ne.
      * now rewrite value_of_insert_ne.
      * now rewrite value_of_insert_ne.
      * now rewrite lookup_insert_eq.
    + simpl. now rewrite insert_id.
Qed.

Lemma RL_Deconvolve_run (image psf : aref) (n : Z) (w : world)
    (obs ker kerf : ndarray) :
  value_of image w = Some obs ->
  value_of psf w = Some ker ->
  value_of (rot_ref psf) w = Some kerf ->
  RL_Deconvolve image psf n w =
  let l := fresh (dom (heap w)) in
  let '(o, content, evs) :=
    loop_pure obs ker kerf (Z.to_nat n) (flat (shape obs) half) in
  (o ≫= (fun _ => Ok (ARef l false)),
   World (<[l := content]> (heap w)) (trace w ++ EvRot90 psf :: evs)).
Proof.
  intros Hi Hp Hr.
  pose proof (is_fresh (dom (heap w))) as Hfresh.
  set (l := fresh (dom (heap w))) in *.
  assert (Hli : l ≠ base image).
  { intros ->. apply Hfresh. eapply value_of_base_some, Hi. }
  assert (Hlp : l ≠ base psf).
  { intros ->. apply Hfresh. eapply value_of_base_some, Hp. }
  unfold RL_Deconvolve.
  rewrite run_bind. unfold load at 1. rewrite Hi.
  rewrite run_bind. unfold alloc at 1. fold l.
  rewrite run_bind. unfold np_rot90_2 at 1.
  rewrite run_bind. unfold log at 1. cbn [heap trace].
  unfold mret at 1, M_ret at 1. fold (rot_ref psf).
  rewrite run_bind. rewrite scalar_mul_half_ones.
  rewrite (for_each_RL_step image psf (rot_ref psf) l obs ker kerf _
             Hli Hlp Hlp _ (flat (shape obs) half));
    cbn [heap trace].
  - rewrite length_py_range.
    destruct (loop_pure obs ker kerf (Z.to_nat n) _) as [[o content] evs].
    rewrite insert_insert_eq, <- app_assoc. simpl.
    destruct o; reflexivity.
  - now rewrite value_of_insert_ne.
  - now rewrite value_of_insert_ne.
  - now rewrite value_of_insert_ne.
  - now rewrite lookup_insert_eq.
Qed.

Lemma RL_Deconvolve_nonpos_run (w : world) (image psf : aref)
    (observed : ndarray) (n : Z) :
  (n <= 0)%Z ->
  value_of image w = Some observed ->
  RL_Deconvolve image psf n w =
  (Ok (ARef (fresh (dom (heap w))) false),
   World (<[fresh (dom (heap w)) := initial_estimate observed]> (heap w))
         (trace w ++ [EvRot90 psf])).
Proof.
  intros Hn Hi. unfold RL_Deconvolve.
  rewrite run_bind. unfold load at 1. rewrite Hi.
  rewrite run_bind. unfold alloc at 1.
  rewrite run_bind. unfold np_rot90_2 at 1.
  rewrite run_bind. unfold log at 1. cbn [heap trace].
  unfold mret at 1, M_ret at 1.
  rewrite run_bind, py_range_nonpos by exact Hn.
  cbn [for_each]. unfold mret, M_ret.
  now rewrite scalar_mul_half_ones.
Qed.

Lemma returned_nonpos (w : world) (image psf : aref) (observed : ndarray) (n : Z) :
  (n <= 0)%Z ->
  value_of image w = Some observed ->
  returned (RL_Deconvolve image psf n) w = Ok (initial_estimate observed).
Proof.
  intros Hn Hi. unfold returned.
  rewrite (RL_Deconvolve_nonpos_run w image psf observed n Hn Hi).
  unfold load. now rewrite value_of_insert_eq.
Qed.

(** ** The pure loop against the iterated update *)

(** numpy's operations compute the specification's update. *)
Lemma step_value_update (observed kernel kernel_flipped estimate : ndarray) :
  step_value observed kernel kernel_flipped estimate =
  update observed kernel kernel_flipped estimate.
Proof.
  unfold step_value, update, conv.
  destruct (convolve_fft estimate kernel _ _ _ _) as [b|e]; [|reflexivity].
  cbn [mbind outcome_bind]. rewrite np_divide_elementwise.
  destruct (elementwise PrimFloat.div observed b) as [r|e]; [|reflexivity].
  cbn [mbind outcome_bind].
  destruct (convolve_fft r kernel_flipped _ _ _ _) as [c|e]; [|reflexivity].
  cbn [mbind outcome_bind]. apply np_imul_elementwise.
Qed.

Section LoopFacts.
Variables observed kernel kernel_flipped : ndarray.

Let F : outcome ndarray -> outcome ndarray :=
  fun estimate => estimate ≫= update observed kernel kernel_flipped.

Lemma iter_raise (k : nat) (e : exn) : Nat.iter k F (Raise e) = Raise e.
Proof. induction k as [|k IH]; simpl; [reflexivity | now rewrite IH]. Qed.

Lemma iter_shift (k : nat) (o : outcome ndarray) :
  Nat.iter (S k) F o = Nat.iter k F (F o).
Proof. induction k as [|k IH]; [reflexivity|]. simpl in *. now rewrite IH. Qed.

Lemma loop_pure_outcome (k : nat) (est : ndarray) :
  fst (fst (loop_pure observed kernel kernel_flipped k est)) =
  Nat.iter k F (Ok est).
Proof.
  revert est. induction k as [|k IH]; intros est; [reflexivity|].
  rewrite iter_shift. cbn [loop_pure]. unfold F at 2. cbn [mbind outcome_bind].
  rewrite step_value_update.
  destruct (update observed kernel kernel_flipped est) as [new|e].
  - rewrite <- IH.
    now destruct (loop_pure observed kernel kernel_flipped k new) as [[o c] evs].
  - now rewrite iter_raise.
Qed.

Lemma loop_pure_content (k : nat) (est new : ndarray) :
  fst (fst (loop_pure observed kernel kernel_flipped k est)) = Ok new ->
  snd (fst (loop_pure observed kernel kernel_flipped k est)) = new.
Proof.
  revert est. induction k as [|k IH]; intros est; cbn [loop_pure].
  - simpl. congruence.
  - destruct (step_value observed kernel kernel_flipped est) as [est'|e].
    + specialize (IH est').
      destruct (loop_pure observed kernel kernel_flipped k est') as [[o c] evs].
      exact IH.
    + discriminate.
Qed.
End LoopFacts.

(** ** What a call returns *)

Lemma RL_Deconvolve_returned (w : world) (image psf : aref)
    (observed kernel : ndarray) (n : Z) :
  heap_wf w ->
  value_of image w = Some observed ->
  value_of psf w = Some kernel ->
  returned (RL_Deconvolve image psf n) w =
  deconvolve observed kernel (Z.to_nat n).
Proof.
  intros Hwf Hi Hp.
  pose proof (value_of_rot_ref psf w kernel Hwf Hp) as Hr.
  unfold returned.
  rewrite (RL_Deconvolve_run image psf n w observed kernel _ Hi Hp Hr).
  cbv zeta.
  pose proof (loop_pure_outcome observed kernel (rot90_2 kernel) (Z.to_nat n)
                (flat (shape observed) half)) as Hout.
  pose proof (loop_pure_content observed kernel (rot90_2 kernel) (Z.to_nat n)
                (flat (shape observed) half)) as Hcont.
  destruct (loop_pure observed kernel (rot90_2 kernel) (Z.to_nat n) _)
    as [[o content] evs].
  simpl in Hout, Hcont. unfold deconvolve, initial_estimate.
  rewrite <- rot90_2_reversed, <- Hout.
  destruct o as [new|e]; simpl; [|reflexivity].
  unfold load. rewrite value_of_insert_eq. simpl.
  now rewrite (Hcont new eq_refl).
Qed.

(** ** The library calls of the loop *)

Section LoopEvents.
Variables observed kernel kernel_flipped : ndarray.

Lemma step_kernels_ok (est new : ndarray) :
  step_value observed kernel kernel_flipped est = Ok new ->
  map kernel_used (step_events observed kernel kernel_flipped est) =
  [Some kernel; Some kernel_flipped].
Proof.
  unfold step_value, step_events.
  destruct (convolve_fft est kernel _ _ _ _) as [b|e]; simpl; [|discriminate].
  destruct (np_divide observed b) as [r|e]; simpl; [|discriminate].
  reflexivity.
Qed.

Lemma step_kernels_prefix (est : ndarray) :
  map kernel_used (step_events observed kernel kernel_flipped est)
  `prefix_of` [Some kernel; Some kernel_flipped].
Proof.
  unfold step_events.
  destruct (convolve_fft est kernel _ _ _ _) as [b|e]; simpl;
    [destruct (np_divide observed b) as [r|e]; simpl|].
  - reflexivity.
  - now exists [Some kernel_flipped].
  - now exists [Some kernel_flipped].
Qed.

Lemma step_keywords (est : ndarray) :
  Forall (fun e => keywords e = Some (BoundaryWrap, false, NanFill, false))
    (step_events observed kernel kernel_flipped est).
Proof.
  unfold step_events.
  destruct (convolve_fft est kernel _ _ _ _ ≫= np_divide observed);
    repeat constructor.
Qed.

Lemma loop_kernels_ok (k : nat) (est new : ndarray) :
  fst (fst (loop_pure observed kernel kernel_flipped k est)) = Ok new ->
  map kernel_used (snd (loop_pure observed kernel kernel_flipped k est)) =
  concat (replicate k [Some kernel; Some kernel_flipped]).
Proof.
  revert est. induction k as [|k IH]; intros est; cbn [loop_pure]; [reflexivity|].
  destruct (step_value observed kernel kernel_flipped est) as [est'|e] eqn:Hu;
    [|discriminate].
  specialize (IH est').
  destruct (loop_pure observed kernel kernel_flipped k est') as [[o c] evs].
  cbn [fst snd] in *. intros Ho.
  now rewrite map_app, (step_kernels_ok est est' Hu), (IH Ho).
Qed.

Lemma loop_kernels_prefix (k : nat) (est : ndarray) :
  map kernel_used (snd (loop_pure observed kernel kernel_flipped k est))
  `prefix_of` concat (replicate k [Some kernel; Some kernel_flipped]).
Proof.
  revert est. induction k as [|k IH]; intros est; cbn [loop_pure]; [reflexivity|].
  destruct (step_value observed kernel kernel_flipped est) as [est'|e] eqn:Hu.
  - specialize (IH est').
    destruct (loop_pure observed kernel kernel_flipped k est') as [[o c] evs].
    cbn [fst snd] in *.
    rewrite map_app, (step_kernels_ok est est' Hu).
    now apply (prefix_app [Some kernel; Some kernel_flipped]).
  - cbn [snd]. etrans; [apply step_kernels_prefix|].
    now apply (prefix_app_r _ _ (concat _)).
Qed.

Lemma loop_keywords (k : nat) (est : ndarray) :
  Forall (fun e => keywords e = Some (BoundaryWrap, false, NanFill, false))
    (snd (loop_pure observed kernel kernel_flipped k est)).
Proof.
  revert est. induction k as [|k IH]; intros est; cbn [loop_pure]; [constructor|].
  destruct (step_value observed kernel kernel_flipped est) as [est'|e].
  - specialize (IH est').
    destruct (loop_pure observed kernel kernel_flipped k est') as [[o c] evs].
    cbn [snd] in *. apply Forall_app. split; [apply step_keywords | exact IH].
  - apply step_keywords.
Qed.

(** The second library call of iteration [k] is made with the quotient of
    that iteration. *)
Lemma loop_second_call (n k : nat) (est0 est blurred ratio : ndarray) :
  k < n ->
  Nat.iter k (fun o => o ≫= update observed kernel kernel_flipped) (Ok est0) = Ok est ->
  conv est kernel = Ok blurred ->
  np_divide observed blurred = Ok ratio ->
  snd (loop_pure observed kernel kernel_flipped n est0) !! (2 * k + 1) =
  Some (EvConvolveFFT ratio kernel_flipped BoundaryWrap false NanFill false).
Proof.
  revert n est0. induction k as [|k IH]; intros n est0 Hk Hiter Hb Hr.
  - simpl in Hiter. injection Hiter as ->.
    destruct n as [|n]; [lia|]. cbn [loop_pure].
    assert (Hev : step_events observed kernel kernel_flipped est =
                  [EvConvolveFFT est kernel BoundaryWrap false NanFill false;
                   EvConvolveFFT ratio kernel_flipped BoundaryWrap false NanFill false]).
    { unfold step_events. unfold conv in Hb. rewrite Hb. cbn [mbind outcome_bind].
      now rewrite Hr. }
    destruct (step_value observed kernel kernel_flipped est) as [new|e].
    + destruct (loop_pure observed kernel kernel_flipped n new) as [[o c] evs].
      cbn [snd]. now rewrite Hev.
    + cbn [snd]. now rewrite Hev.
  - rewrite iter_shift in Hiter. cbn [mbind outcome_bind] in Hiter.
    destruct n as [|n]; [lia|]. cbn [loop_pure].
    rewrite step_value_update.
    destruct (update observed kernel kernel_flipped est0) as [est1|e] eqn:Hu.
    + pose proof (step_kernels_ok est0 est1) as Hlen.
      rewrite step_value_update in Hlen. specialize (Hlen Hu).
      apply (f_equal length) in Hlen. rewrite length_map in Hlen.
      change (length [Some kernel; Some kernel_flipped]) with 2 in Hlen.
      specialize (IH n est1 ltac:(lia) Hiter Hb Hr).
      destruct (loop_pure observed kernel kernel_flipped n est1) as [[o c] evs].
      cbn [snd] in *.
      rewrite lookup_app_r by lia. rewrite Hlen.
      now replace (2 * S k + 1 - 2) with (2 * k + 1) by lia.
    + now rewrite iter_raise in Hiter.
Qed.
End LoopEvents.

Lemma kernels_no_other_event (evs : list event) (ks : list ndarray) :
  map kernel_used evs `prefix_of` map Some ks ->
  Forall (fun e => is_rot90 e = false /\ is_print e = false) evs.
Proof.
  revert ks. induction evs as [|e evs IH]; intros ks [rest Hrest]; constructor.
  - destruct ks as [|k ks]; [discriminate|].
    simpl in Hrest. injection Hrest as He _. now destruct e.
  - destruct ks as [|k ks]; [discriminate|].
    simpl in Hrest. injection Hrest as _ Hrest.
    apply (IH ks). now exists rest.
Qed.

Lemma concat_replicate_some (k : nat) (a b : ndarray) :
  concat (replicate k [Some a; Some b]) = map Some (concat (replicate k [a; b])).
Proof. induction k as [|k IH]; simpl; [reflexivity | now rewrite IH]. Qed.

Lemma length_concat_replicate_pair {A} (k : nat) (a b : A) :
  length (concat (replicate k [a; b])) = 2 * k.
Proof. induction k as [|k IH]; simpl; [reflexivity | rewrite IH; lia]. Qed.

(** ** The state a call leaves behind *)

Lemma RL_Deconvolve_final_world (w : world) (image psf : aref)
    (observed kernel kernel_flipped : ndarray) (n : Z) :
  value_of image w = Some observed ->
  value_of psf w = Some kernel ->
  value_of (rot_ref psf) w = Some kernel_flipped ->
  exists (o : outcome ndarray) content evs,
    RL_Deconvolve image psf n w =
      (o ≫= (fun _ => Ok (ARef (fresh (dom (heap w))) false)),
       World (<[fresh (dom (heap w)) := content]> (heap w))
             (trace w ++ EvRot90 psf :: evs)) /\
    evs = snd (loop_pure observed kernel kernel_flipped (Z.to_nat n)
                 (flat (shape observed) half)) /\
    map kernel_used evs `prefix_of`
      concat (replicate (Z.to_nat n) [Some kernel; Some kernel_flipped]) /\
    (forall new, o = Ok new ->
       map kernel_used evs =
       concat (replicate (Z.to_nat n) [Some kernel; Some kernel_flipped])).
Proof.
  intros Hi Hp Hr.
  rewrite (RL_Deconvolve_run image psf n w observed kernel kernel_flipped Hi Hp Hr).
  cbv zeta.
  pose proof (loop_kernels_prefix observed kernel kernel_flipped (Z.to_nat n)
                (flat (shape observed) half)) as Hpre.
  pose proof (loop_kernels_ok observed kernel kernel_flipped (Z.to_nat n)
                (flat (shape observed) half)) as Hok.
  destruct (loop_pure observed kernel kernel_flipped (Z.to_nat n) _)
    as [[o content] evs].
  exists o, content, evs. cbn [fst snd] in *.
  split; [reflexivity|]. split; [reflexivity|]. split; [exact Hpre|].
  intros new ->. now apply (Hok new).
Qed.

End Running.

(** ** Shapes and exceptions of the array operations *)

Lemma broadcast_shape_raises (s t : nat * nat) (e : exn) :
  broadcast_shape s t = Raise e -> e = ValueError.
Proof.
  unfold broadcast_shape, broadcast_dim.
  repeat (match goal with |- context [if ?b then _ else _] => destruct b end;
          cbn [mbind outcome_bind]);
    intros H; try discriminate H; now injection H as <-.
Qed.

Lemma np_divide_raises (a b : ndarray) (e : exn) :
  np_divide a b = Raise e -> e = ValueError.
Proof.
  unfold np_divide.
  destruct (broadcast_shape (shape a) (shape b)) as [sh|e'] eqn:Hb;
    cbn [mbind outcome_bind]; [discriminate|].
  intros [= <-]. exact (broadcast_shape_raises _ _ _ Hb).
Qed.

Lemma np_imul_raises (x c : ndarray) (e : exn) :
  np_imul x c = Raise e -> e = ValueError.
Proof.
  unfold np_imul.
  destruct (broadcast_shape (shape x) (shape c)) as [sh|e'] eqn:Hb;
    cbn [mbind outcome_bind].
  - destruct (decide (sh = shape x)); [discriminate|]. now intros [= <-].
  - intros [= <-]. exact (broadcast_shape_raises _ _ _ Hb).
Qed.

Lemma np_imul_shape (x c new : ndarray) :
  np_imul x c = Ok new -> shape new = shape x /\ wf new.
Proof.
  unfold np_imul.
  destruct (broadcast_shape (shape x) (shape c)) as [sh|e'];
    cbn [mbind outcome_bind]; [|discriminate].
  destruct (decide (sh = shape x)); [|discriminate].
  intros [= <-]. split; [reflexivity | apply wf_tabulate].
Qed.

(** An in-place product into an array that is shorter, on some axis, than
    the other operand cannot be stored. *)
Lemma np_imul_too_large (x c : ndarray) :
  (1 <= rows x /\ rows x < rows c) \/ (1 <= cols x /\ cols x < cols c) ->
  np_imul x c = Raise ValueError.
Proof.
  intros Hbig.
  destruct (np_imul x c) as [new|e] eqn:Hm;
    [|now rewrite (np_imul_raises _ _ _ Hm)].
  exfalso. revert Hm. unfold np_imul, broadcast_shape, broadcast_dim, rows, cols in *.
  destruct (shape x) as [h w], (shape c) as [h' w']. cbn [fst snd] in *.
  destruct (Nat.eqb_spec h h'); destruct (Nat.eqb_spec h 1);
    destruct (Nat.eqb_spec h' 1); cbn [mbind outcome_bind]; try discriminate;
    destruct (Nat.eqb_spec w w'); destruct (Nat.eqb_spec w 1);
    destruct (Nat.eqb_spec w' 1); cbn [mbind outcome_bind]; try discriminate;
    match goal with |- context [decide ?P] => destruct (decide P) as [Heq|] end;
    try discriminate;
    pose proof (f_equal fst Heq); pose proof (f_equal snd Heq);
    cbn [fst snd] in *; lia.
Qed.

Lemma broadcast_shape_same (s : nat * nat) : broadcast_shape s s = Ok s.
Proof.
  destruct s as [h w]. unfold broadcast_shape, broadcast_dim. simpl.
  now rewrite !Nat.eqb_refl.
Qed.

Lemma bget_in_range (a : ndarray) (i j : nat) :
  i < rows a -> j < cols a -> bget a i j = get a i j.
Proof.
  intros Hi Hj. unfold bget.
  destruct (Nat.eqb_spec (rows a) 1); destruct (Nat.eqb_spec (cols a) 1);
    f_equal; lia.
Qed.

Lemma np_divide_same_shape (a b : ndarray) :
  shape a = shape b -> np_divide a b = Ok (quotient a b).
Proof.
  intros Hs. unfold np_divide, quotient. rewrite <- Hs, broadcast_shape_same. simpl.
  f_equal. apply tabulate_ext. intros i j Hi Hj.
  rewrite !bget_in_range; unfold rows, cols; try rewrite <- Hs; auto.
Qed.

Lemma np_imul_same_shape (x c : ndarray) :
  shape x = shape c ->
  np_imul x c = Ok (tabulate (shape x) (fun i j => (get x i j * get c i j)%float)).
Proof.
  intros Hs. unfold np_imul. rewrite <- Hs, broadcast_shape_same. simpl.
  destruct (decide (shape x = shape x)); [|contradiction].
  f_equal. apply tabulate_ext. intros i j Hi Hj.
  rewrite bget_in_range; unfold rows, cols; try rewrite <- Hs; auto.
Qed.

Lemma newshape_fits (s t : nat * nat) :
  fst t <= fst s -> snd t <= snd s -> newshape s t = s.
Proof.
  intros Hr Hc. destruct s as [h w]. unfold newshape. cbn [fst snd] in *.
  f_equal; lia.
Qed.

Section Shapes.
Context {L : FFTBackend}.

(** [crop=False]: the result has the working shape. *)
Lemma conv_shape (a k c : ndarray) :
  conv a k = Ok c -> shape c = newshape (shape a) (shape k) /\ wf c.
Proof.
  unfold conv, convolve_fft.
  destruct (rifft _ _ _ a k) as [r|]; [|discriminate].
  intros [= <-]. split; [reflexivity | apply wf_tabulate].
Qed.

Lemma conv_raises (a k : ndarray) (e : exn) :
  conv a k = Raise e -> e = ValueError.
Proof.
  unfold conv, convolve_fft.
  destruct (rifft _ _ _ a k) as [r|]; [discriminate|]. now intros [= <-].
Qed.

Lemma deconvolve_succ (observed kernel : ndarray) (k : nat) :
  deconvolve observed kernel (S k) =
  deconvolve observed kernel k ≫= update observed kernel (reversed kernel).
Proof. reflexivity. Qed.

(** ** A kernel that fits, a kernel that does not *)

(** When both convolutions return arrays of the image's shape, the update is
    the plain element-wise one. *)
Lemma update_same_shapes (observed kernel kernel_flipped estimate b c : ndarray) :
  shape estimate = shape observed ->
  conv estimate kernel = Ok b -> shape b = shape observed ->
  conv (quotient observed b) kernel_flipped = Ok c -> shape c = shape observed ->
  update observed kernel kernel_flipped estimate =
  Ok (tabulate (shape observed) (fun i j => (get estimate i j * get c i j)%float)).
Proof.
  intros He Hb Hsb Hc Hsc. rewrite <- step_value_update. unfold step_value.
  unfold conv in Hb, Hc. rewrite Hb. cbn [mbind outcome_bind].
  rewrite np_divide_same_shape by congruence. cbn [mbind outcome_bind].
  rewrite Hc. cbn [mbind outcome_bind].
  rewrite np_imul_same_shape by congruence. now rewrite He.
Qed.

(** With a kernel that fits into the image, the division and the in-place
    product do not raise: an update fails only where the library does. *)
Lemma update_fits (observed kernel kernel_flipped estimate : ndarray) :
  shape estimate = shape observed ->
  rows kernel <= rows observed -> cols kernel <= cols observed ->
  rows kernel_flipped <= rows observed -> cols kernel_flipped <= cols observed ->
  match update observed kernel kernel_flipped estimate with
  | Ok new => shape new = shape observed /\ wf new
  | Raise e =>
      e = ValueError /\
      exists a k, shape a = shape observed /\ (k = kernel \/ k = kernel_flipped) /\
                  conv a k = Raise e
  end.
Proof.
  intros He Hkr Hkc Hfr Hfc.
  destruct (conv estimate kernel) as [b|e] eqn:Hb.
  - destruct (conv_shape _ _ _ Hb) as [Hsb _].
    rewrite He, newshape_fits in Hsb by assumption.
    destruct (conv (quotient observed b) kernel_flipped) as [c|e] eqn:Hc.
    + destruct (conv_shape _ _ _ Hc) as [Hsc _].
      cbn [quotient tabulate shape] in Hsc.
      rewrite newshape_fits in Hsc by assumption.
      rewrite (update_same_shapes _ _ _ _ b c) by assumption.
      split; [reflexivity | apply wf_tabulate].
    + rewrite <- step_value_update. unfold step_value.
      unfold conv in Hb, Hc. rewrite Hb. cbn [mbind outcome_bind].
      rewrite np_divide_same_shape by congruence. cbn [mbind outcome_bind].
      rewrite Hc. cbn [mbind outcome_bind].
      split; [exact (conv_raises _ _ _ Hc)|].
      exists (quotient observed b), kernel_flipped. repeat split; auto.
  - rewrite <- step_value_update. unfold step_value.
    pose proof Hb as Hb'. unfold conv in Hb'. rewrite Hb'. cbn [mbind outcome_bind].
    split; [exact (conv_raises _ _ _ Hb)|].
    exists estimate, kernel. repeat split; auto.
Qed.

Lemma shape_reversed (k : ndarray) : shape (reversed k) = shape k.
Proof. reflexivity. Qed.

Lemma deconvolve_fits (observed kernel : ndarray) (n : nat) :
  rows kernel <= rows observed -> cols kernel <= cols observed ->
  match deconvolve observed kernel n with
  | Ok r => shape r = shape observed /\ wf r
  | Raise e =>
      e = ValueError /\ 0 < n /\
      exists a k, shape a = shape observed /\ shape k = shape kernel /\
                  conv a k = Raise e
  end.
Proof.
  intros Hkr Hkc. induction n as [|n IH].
  - split; [reflexivity | apply wf_tabulate].
  - rewrite deconvolve_succ.
    destruct (deconvolve observed kernel n) as [est|e]; cbn [mbind outcome_bind].
    + destruct IH as [Hs _].
      pose proof (update_fits observed kernel (reversed kernel) est Hs Hkr Hkc Hkr Hkc)
        as Hu.
      destruct (update observed kernel (reversed kernel) est) as [new|e];
        [exact Hu|].
      destruct Hu as (-> & a & k & Ha & Hk & Hc).
      split; [reflexivity|]. split; [lia|].
      exists a, k. repeat split; [exact Ha | | exact Hc].
      now destruct Hk as [->| ->].
    + destruct IH as (-> & _ & a & k & Ha & Hk & Hc).
      split; [reflexivity|]. split; [lia|]. now exists a, k.
Qed.

Lemma update_too_large (observed kernel kernel_flipped estimate : ndarray) :
  shape estimate = shape observed ->
  shape kernel_flipped = shape kernel ->
  (1 <= rows observed /\ rows observed < rows kernel) \/
  (1 <= cols observed /\ cols observed < cols kernel) ->
  update observed kernel kernel_flipped estimate = Raise ValueError.
Proof.
  intros He Hf Hbig. rewrite <- step_value_update. unfold step_value.
  fold (conv estimate kernel).
  destruct (conv estimate kernel) as [b|e] eqn:Hb; cbn [mbind outcome_bind];
    [|now rewrite (conv_raises _ _ _ Hb)].
  destruct (np_divide observed b) as [r|e] eqn:Hd; cbn [mbind outcome_bind];
    [|now rewrite (np_divide_raises _ _ _ Hd)].
  fold (conv r kernel_flipped).
  destruct (conv r kernel_flipped) as [c|e] eqn:Hc; cbn [mbind outcome_bind];
    [|now rewrite (conv_raises _ _ _ Hc)].
  apply np_imul_too_large.
  apply conv_shape in Hc as [Hc _]. unfold rows, cols in *.
  rewrite Hc, Hf, He. unfold newshape. cbn [fst snd]. lia.
Qed.

Lemma deconvolve_too_large (observed kernel : ndarray) (k : nat) :
  (1 <= rows observed /\ rows observed < rows kernel) \/
  (1 <= cols observed /\ cols observed < cols kernel) ->
  deconvolve observed kernel (S k) = Raise ValueError.
Proof.
  intros Hbig. unfold deconvolve.
  rewrite (iter_shift observed kernel (reversed kernel)).
  cbn [mbind outcome_bind]. unfold initial_estimate.
  rewrite update_too_large by (reflexivity || exact Hbig).
  apply iter_raise.
Qed.

End Shapes.

(** ** float64 arithmetic

    Facts about the primitive operations, from their specification
    ([Prim2SF], [SFmul], [SFdiv]). *)

Lemma SFeqb_finite_refl (s : bool) (m : positive) (e : Z) :
  SFeqb (S754_finite s m e) (S754_finite s m e) = true.
Proof.
  unfold SFeqb, SFcompare.
  rewrite Z.compare_refl, Pos.compare_cont_refl. now destruct s.
Qed.

Lemma is_finite_SF (x : float) :
  is_finite x =
  match Prim2SF x with
  | S754_zero _ | S754_finite _ _ _ => true
  | _ => false
  end.
Proof.
  unfold is_finite, is_nan, is_infinity.
  rewrite !FloatAxioms.eqb_spec, FloatAxioms.abs_spec.
  change (Prim2SF infinity) with (S754_infinity false).
  destruct (Prim2SF x) as [s|s| |s m e]; try (now destruct s).
  - reflexivity.
  - cbn [SFabs]. rewrite SFeqb_finite_refl. reflexivity.
Qed.

Lemma is_zero_SF (x : float) :
  is_zero x = match Prim2SF x with S754_zero _ => true | _ => false end.
Proof.
  unfold is_zero. rewrite FloatAxioms.eqb_spec.
  change (Prim2SF zero) with (S754_zero false).
  destruct (Prim2SF x) as [s|s| |s m e]; try (now destruct s). reflexivity.
Qed.

(** Division by a zero yields an infinity or NaN, whatever the numerator. *)
Lemma div_zero_not_finite (x d : float) :
  is_zero d = true -> is_finite (x / d)%float = false.
Proof.
  rewrite is_zero_SF, is_finite_SF, FloatAxioms.div_spec.
  destruct (Prim2SF d) as [sd| | |]; try discriminate. intros _.
  now destruct (Prim2SF x).
Qed.

Lemma div_eucl_exact (a b q : Z) :
  (0 < b)%Z -> a = (b * q)%Z -> Z.div_eucl a b = (q, 0%Z).
Proof.
  intros Hb ->.
  assert (E : Z.div_eucl (b * q) b = ((b * q) / b, (b * q) mod b)%Z)
    by (unfold Z.div, Z.modulo; now destruct (Z.div_eucl (b * q) b)).
  rewrite E. f_equal.
  - rewrite Z.mul_comm. apply Z.div_mul. lia.
  - rewrite Z.mul_comm. apply Z.mod_mul. lia.
Qed.

(** A finite number divided by itself is exactly 1. *)
Lemma SFdiv_self (s : bool) (m : positive) (e : Z) :
  SF64div (S754_finite s m e) (S754_finite s m e) = Prim2SF 1.
Proof.
  unfold SF64div, SFdiv, SFdiv_core_binary.
  replace (Zdigits2 (Z.pos m) + e - (Zdigits2 (Z.pos m) + e))%Z with 0%Z by lia.
  replace (e - e)%Z with 0%Z by lia.
  change (Z.min (fexp prec emax 0) 0) with (-53)%Z.
  change (0 - -53)%Z with 53%Z. cbv iota.
  rewrite (div_eucl_exact _ (Z.pos m) (2 ^ 53)%Z) by (try rewrite Z.shiftl_mul_pow2; lia).
  unfold new_location, new_location_even, new_location_odd.
  destruct (Z.even (Z.pos m)), s; reflexivity.
Qed.

Lemma div_self (x : float) :
  is_finite x = true -> is_zero x = false -> (x / x)%float = 1%float.
Proof.
  rewrite is_finite_SF, is_zero_SF. intros Hf Hz.
  apply Prim2SF_inj. rewrite FloatAxioms.div_spec.
  destruct (Prim2SF x) as [s|s| |s m e]; try discriminate.
  apply SFdiv_self.
Qed.

Lemma div_self_zero (x : float) : is_zero x = true -> (x / x)%float = nan.
Proof.
  rewrite is_zero_SF. intros Hz. apply Prim2SF_inj. rewrite FloatAxioms.div_spec.
  now destruct (Prim2SF x).
Qed.

(** Shifting a mantissa to the left and then to the right by as many bits
    gives it back, exactly. *)
Lemma iter_pos_iter {A} (f : A -> A) (n : positive) (x : A) :
  SpecFloat.iter_pos f n x = Pos.iter f x n.
Proof.
  revert x. induction n as [n IH|n IH|]; intros x; cbn [SpecFloat.iter_pos Pos.iter].
  - rewrite !IH. now rewrite <- !Pos.iter_swap.
  - now rewrite !IH.
  - reflexivity.
Qed.

Lemma shr_shifted (m : positive) (n : positive) :
  SpecFloat.iter_pos shr_1 n (Build_shr_record (Z.pos (Pos.iter xO m n)) false false) =
  Build_shr_record (Z.pos m) false false.
Proof.
  rewrite iter_pos_iter. revert m.
  induction n as [|n IH] using Pos.peano_ind; intros m.
  - reflexivity.
  - rewrite Pos.iter_succ. rewrite Pos.iter_succ_r. rewrite IH. reflexivity.
Qed.

Lemma digits2_shifted (m n : positive) :
  Z.pos (digits2_pos (Pos.iter xO m n)) = (Z.pos (digits2_pos m) + Z.pos n)%Z.
Proof.
  induction n as [|n IH] using Pos.peano_ind.
  - cbn. lia.
  - rewrite Pos.iter_succ. cbn [digits2_pos]. lia.
Qed.

Lemma valid_finite (x : float) (s : bool) (m : positive) (e : Z) :
  Prim2SF x = S754_finite s m e ->
  (Z.max (Z.pos (digits2_pos m) + e - 53) (-1074) = e /\ e <= 971)%Z.
Proof.
  intros H. pose proof (Prim2SF_valid x) as V. rewrite H in V.
  unfold SpecFloat.valid_binary, bounded, canonical_mantissa in V.
  apply andb_true_iff in V as [V1 V2].
  apply Z.eqb_eq in V1. apply Z.leb_le in V2. split; [exact V1 | exact V2].
Qed.

(** Rounding a mantissa that was shifted left by [n] bits, at the exponent
    lowered by [n], gives the number back. *)
Lemma binary_round_aux_shifted (s : bool) (m n : positive) (e : Z) :
  (Z.max (Z.pos (digits2_pos m) + e - 53) (-1074) = e)%Z -> (e <= 971)%Z ->
  binary_round_aux prec emax s (Z.pos (Pos.iter xO m n)) (e - Z.pos n) loc_Exact =
  S754_finite s m e.
Proof.
  intros Hc He. unfold binary_round_aux, shr_fexp.
  cbn [Zdigits2 shr_record_of_loc]. rewrite digits2_shifted.
  replace (fexp prec emax (Z.pos (digits2_pos m) + Z.pos n + (e - Z.pos n)) -
           (e - Z.pos n))%Z with (Z.pos n)
    by (unfold fexp, emin, prec, emax; lia).
  cbn [shr]. rewrite shr_shifted.
  cbn [shr_m loc_of_shr_record round_nearest_even Zdigits2 shr_record_of_loc].
  replace (e - Z.pos n + Z.pos n)%Z with e by lia.
  replace (fexp prec emax (Z.pos (digits2_pos m) + e) - e)%Z with 0%Z
    by (unfold fexp, emin, prec, emax; lia).
  cbn [shr shr_m].
  replace (e <=? emax - prec)%Z with true
    by (symmetry; apply Z.leb_le; unfold emax, prec; lia).
  reflexivity.
Qed.

Lemma pos_mul_pow2_52 (m : positive) :
  (4503599627370496 * m)%positive = Pos.iter xO m 52.
Proof. reflexivity. Qed.

(** Multiplying a finite number by 1 changes nothing. *)
Lemma mul_one_r (x : float) : is_finite x = true -> (x * 1)%float = x.
Proof.
  rewrite is_finite_SF. intros Hf. apply Prim2SF_inj. rewrite FloatAxioms.mul_spec.
  change (Prim2SF 1) with (S754_finite false 4503599627370496 (-52)).
  destruct (Prim2SF x) as [s|s| |s m e] eqn:Hx; try discriminate.
  - now destruct s.
  - destruct (valid_finite x s m e Hx) as [Hc He].
    unfold SF64mul, SFmul. rewrite Pos.mul_comm, pos_mul_pow2_52.
    rewrite xorb_false_r.
    replace (e + -52)%Z with (e - 52)%Z by lia.
    now apply binary_round_aux_shifted.
Qed.

(** A zero times 0 is that zero. *)
Lemma mul_zero_r (x : float) : is_zero x = true -> (x * 0)%float = x.
Proof.
  rewrite is_zero_SF. intros Hz. apply Prim2SF_inj. rewrite FloatAxioms.mul_spec.
  change (Prim2SF 0) with (S754_zero false).
  destruct (Prim2SF x) as [s| | |]; try discriminate. now destruct s.
Qed.

(** Division by 0.5 doubles: the exponent goes up by one, or, for a
    subnormal number, the mantissa is doubled; the largest numbers overflow
    to an infinity. *)
Lemma SFdiv_half (s : bool) (m : positive) (e : Z) :
  (Z.max (Z.pos (digits2_pos m) + e - 53) (-1074) = e)%Z -> (e <= 971)%Z ->
  SF64div (S754_finite s m e) (Prim2SF half) =
  if decide (Z.pos (digits2_pos m) = 53%Z)
  then (if decide (e + 1 <= 971)%Z then S754_finite s m (e + 1) else S754_infinity s)
  else S754_finite s m~0 e.
Proof.
  intros Hc He.
  change (Prim2SF half) with (S754_finite false 4503599627370496 (-53)).
  unfold SF64div, SFdiv, SFdiv_core_binary.
  change (Zdigits2 (Z.pos 4503599627370496)) with 53%Z.
  cbn [Zdigits2].
  replace (Z.min (fexp prec emax (Z.pos (digits2_pos m) + e - (53 + -53))) (e - -53))
    with e by (unfold fexp, emin, prec, emax; lia).
  replace (e - -53 - e)%Z with 53%Z by lia. cbv iota.
  rewrite (div_eucl_exact _ _ (Z.pos m~0)) by (try rewrite Z.shiftl_mul_pow2; lia).
  change (new_location (Z.pos 4503599627370496) 0) with loc_Exact.
  rewrite xorb_false_r.
  unfold binary_round_aux, shr_fexp. cbn [Zdigits2 digits2_pos shr_record_of_loc].
  destruct (decide (Z.pos (digits2_pos m) = 53%Z)) as [Hd|Hd].
  - replace (fexp prec emax (Z.pos (Pos.succ (digits2_pos m)) + e) - e)%Z with 1%Z
      by (unfold fexp, emin, prec, emax; lia).
    cbn [shr SpecFloat.iter_pos shr_1 shr_m loc_of_shr_record round_nearest_even
         Zdigits2 shr_record_of_loc orb].
    replace (fexp prec emax (Z.pos (digits2_pos m) + (e + 1)) - (e + 1))%Z with 0%Z
      by (unfold fexp, emin, prec, emax; lia).
    cbn [shr shr_m].
    destruct (decide (e + 1 <= 971)%Z) as [Ho|Ho].
    + replace (e + 1 <=? emax - prec)%Z with true
        by (symmetry; apply Z.leb_le; unfold emax, prec; lia).
      reflexivity.
    + replace (e + 1 <=? emax - prec)%Z with false
        by (symmetry; apply Z.leb_gt; unfold emax, prec; lia).
      reflexivity.
  - replace (fexp prec emax (Z.pos (Pos.succ (digits2_pos m)) + e) - e)%Z with 0%Z
      by (unfold fexp, emin, prec, emax; lia).
    cbn [shr shr_m loc_of_shr_record round_nearest_even Zdigits2 digits2_pos
         shr_record_of_loc].
    replace (fexp prec emax (Z.pos (Pos.succ (digits2_pos m)) + e) - e)%Z with 0%Z
      by (unfold fexp, emin, prec, emax; lia).
    cbn [shr shr_m].
    replace (e <=? emax - prec)%Z with true
      by (symmetry; apply Z.leb_le; unfold emax, prec; lia).
    reflexivity.
Qed.

(** A number whose double is finite is recovered by halving the double. *)
Lemma halve_double (v : float) :
  is_finite (v / half)%float = true -> (half * (v / half))%float = v.
Proof.
  rewrite is_finite_SF. intros Hf.
  apply Prim2SF_inj. rewrite FloatAxioms.mul_spec.
  rewrite FloatAxioms.div_spec in Hf |- *.
  destruct (Prim2SF v) as [s|s| |s m e] eqn:Hv.
  - now destruct s.
  - now destruct s.
  - discriminate.
  - destruct (valid_finite v s m e Hv) as [Hc He].
    rewrite (SFdiv_half s m e Hc He) in Hf |- *.
    change (Prim2SF half) with (S754_finite false 4503599627370496 (-53)).
    destruct (decide (Z.pos (digits2_pos m) = 53%Z)) as [Hd|Hd].
    + destruct (decide (e + 1 <= 971)%Z) as [Ho|Ho]; [|discriminate].
      unfold SF64mul, SFmul. rewrite pos_mul_pow2_52. cbn [xorb].
      replace (-53 + (e + 1))%Z with (e - 52)%Z by lia.
      now apply binary_round_aux_shifted.
    + unfold SF64mul, SFmul. cbn [xorb].
      change (4503599627370496 * m~0)%positive with (Pos.iter xO m 53).
      replace (-53 + e)%Z with (e - 53)%Z by lia.
      now apply binary_round_aux_shifted.
Qed.

Lemma div_half_finite (v : float) :
  is_finite (v / half)%float = true -> is_finite v = true.
Proof.
  rewrite !is_finite_SF, FloatAxioms.div_spec.
  change (Prim2SF half) with (S754_finite false 4503599627370496 (-53)).
  now destruct (Prim2SF v).
Qed.

Lemma filled_finite (v : float) : is_finite v = true -> filled v = v.
Proof. unfold filled. now intros ->. Qed.

(** An element that is kept: [v * filled (v / v)] is [v] for finite [v],
    whether the quotient is 1 or, for a zero, the NaN that is replaced
    by 0. *)
Lemma kept_element (v : float) :
  is_finite v = true -> (v * filled (v / v))%float = v.
Proof.
  intros Hf. destruct (is_zero v) eqn:Hz.
  - rewrite (div_self_zero v Hz). change (filled nan) with 0%float.
    now apply mul_zero_r.
  - rewrite (div_self v Hf Hz). change (filled 1) with 1%float.
    now apply mul_one_r.
Qed.

(** ** The working array is always a numpy array *)

Lemma heap_wf_insert (w : world) (l : loc) (a : ndarray) tr :
  heap_wf w -> wf a -> heap_wf (World (<[l := a]> (heap w)) tr).
Proof. intros Hw Ha. unfold heap_wf. cbn [heap]. now apply map_Forall_insert_2. Qed.

Lemma loop_pure_content_wf `{L : FFTBackend} (observed kernel kernel_flipped : ndarray)
    (k : nat) (est : ndarray) :
  wf est -> wf (snd (fst (loop_pure observed kernel kernel_flipped k est))).
Proof.
  revert est. induction k as [|k IH]; intros est Hwf; cbn [loop_pure];
    [exact Hwf|].
  destruct (step_value observed kernel kernel_flipped est) as [new|e] eqn:Hu.
  - assert (Hnew : wf new).
    { revert Hu. unfold step_value.
      destruct (convolve_fft est kernel _ _ _ _) as [b|]; cbn [mbind outcome_bind];
        [|discriminate].
      destruct (np_divide observed b) as [r|]; cbn [mbind outcome_bind];
        [|discriminate].
      destruct (convolve_fft r kernel_flipped _ _ _ _) as [c|];
        cbn [mbind outcome_bind]; [|discriminate].
      intros Hm. now apply np_imul_shape in Hm. }
    specialize (IH new Hnew).
    now destruct (loop_pure observed kernel kernel_flipped k new) as [[o c] evs].
  - exact Hwf.
Qed.

Lemma get_in_data (a : ndarray) (i j : nat) :
  wf a -> i < rows a -> j < cols a -> In (get a i j) (data a).
Proof.
  unfold wf, get. intros Hwf Hi Hj. apply nth_In. rewrite Hwf. nia.
Qed.

(** ** The identity kernel *)

Lemma rot90_2_identity_kernel (kh kw : nat) :
  kh mod 2 = 1 -> kw mod 2 = 1 ->
  rot90_2 (identity_kernel (kh, kw)) = identity_kernel (kh, kw).
Proof.
  intros Hoh How.
  apply ndarray_ext; [apply wf_rot90_2 | apply wf_tabulate | reflexivity |].
  intros i j Hi Hj.
  change (rows (rot90_2 (identity_kernel (kh, kw)))) with kh in Hi.
  change (cols (rot90_2 (identity_kernel (kh, kw)))) with kw in Hj.
  rewrite get_rot90_2 by assumption.
  change (rows (identity_kernel (kh, kw))) with kh.
  change (cols (identity_kernel (kh, kw))) with kw.
  unfold identity_kernel. rewrite !get_tabulate by (cbn [fst snd]; lia).
  cbn [fst snd].
  pose proof (Nat.div_mod_eq kh 2). pose proof (Nat.div_mod_eq kw 2).
  destruct (Nat.eqb_spec (kh - 1 - i) (kh / 2)); destruct (Nat.eqb_spec i (kh / 2));
    destruct (Nat.eqb_spec (kw - 1 - j) (kw / 2)); destruct (Nat.eqb_spec j (kw / 2));
    (reflexivity || (exfalso; lia)).
Qed.

Lemma get_nan_filled (a : ndarray) (i j : nat) :
  i < rows a -> j < cols a -> get (nan_filled a) i j = filled (get a i j).
Proof. intros Hi Hj. unfold nan_filled. now rewrite get_tabulate. Qed.

Lemma get_quotient (a b : ndarray) (i j : nat) :
  i < rows a -> j < cols a ->
  get (quotient a b) i j = (get a i j / get b i j)%float.
Proof. intros Hi Hj. unfold quotient. now rewrite get_tabulate. Qed.

(** ** A convolution that changes nothing *)

Lemma nan_filled_flat (sh : nat * nat) (v : float) :
  nan_filled (flat sh v) = flat sh (filled v).
Proof.
  unfold nan_filled. change (shape (flat sh v)) with sh. unfold flat at 2.
  apply tabulate_ext. intros i j Hi Hj. now rewrite get_flat.
Qed.

Lemma nan_filled_finite (a : ndarray) :
  wf a ->
  (forall i j, i < rows a -> j < cols a -> is_finite (get a i j) = true) ->
  nan_filled a = a.
Proof.
  intros Hwf Hfin. transitivity (tabulate (shape a) (get a));
    [|now apply tabulate_get].
  apply tabulate_ext. intros i j Hi Hj. now apply filled_finite, Hfin.
Qed.

Section NoOpConvolution.
Context {L : FFTBackend}.
Variables (observed kernel : ndarray).
Hypothesis Hwf : wf observed.
Hypothesis Hsym : reversed kernel = kernel.
Hypothesis Hnoop :
  Forall (unchanged_by kernel)
    [flat (shape observed) half; quotient observed (flat (shape observed) half);
     observed; quotient observed observed].
Hypothesis Hdouble :
  Forall (fun v => is_finite (v / half)%float = true) (data observed).

Lemma unchanged_each :
  unchanged_by kernel (flat (shape observed) half) /\
  unchanged_by kernel (quotient observed (flat (shape observed) half)) /\
  unchanged_by kernel observed /\
  unchanged_by kernel (quotient observed observed).
Proof.
  pose proof Hnoop as Hk.
  apply Forall_cons in Hk as [H1 Hk]. apply Forall_cons in Hk as [H2 Hk].
  apply Forall_cons in Hk as [H3 Hk]. apply Forall_cons in Hk as [H4 _].
  auto.
Qed.

Lemma element_doubles (i j : nat) :
  i < rows observed -> j < cols observed ->
  is_finite (get observed i j / half)%float = true.
Proof.
  intros Hi Hj. rewrite Forall_forall in Hdouble.
  apply Hdouble, list_elem_of_In. now apply get_in_data.
Qed.

Lemma observed_finite : nan_filled observed = observed.
Proof.
  apply nan_filled_finite; [exact Hwf|].
  intros i j Hi Hj. now apply div_half_finite, element_doubles.
Qed.

(** The first update turns the flat 0.5 into the observed image. *)
Lemma first_update_noop :
  update observed kernel kernel (initial_estimate observed) = Ok observed.
Proof.
  destruct unchanged_each as (K1 & K2 & _ & _). unfold unchanged_by in *.
  rewrite nan_filled_flat in K1. change (filled half) with half in K1.
  rewrite (update_same_shapes observed kernel kernel _
             (flat (shape observed) half)
             (nan_filled (quotient observed (flat (shape observed) half))));
    try reflexivity; try assumption.
  f_equal. transitivity (tabulate (shape observed) (get observed));
    [|now apply tabulate_get].
  apply tabulate_ext. intros i j Hi Hj.
  rewrite get_nan_filled, get_quotient by assumption.
  unfold initial_estimate. rewrite !get_flat by assumption.
  rewrite filled_finite by now apply element_doubles.
  apply halve_double. now apply element_doubles.
Qed.

(** Every later update keeps it. *)
Lemma later_update_noop :
  update observed kernel kernel observed = Ok observed.
Proof.
  destruct unchanged_each as (_ & _ & K3 & K4). unfold unchanged_by in *.
  rewrite observed_finite in K3.
  rewrite (update_same_shapes observed kernel kernel _ observed
             (nan_filled (quotient observed observed)));
    try reflexivity; try assumption.
  f_equal. transitivity (tabulate (shape observed) (get observed));
    [|now apply tabulate_get].
  apply tabulate_ext. intros i j Hi Hj.
  rewrite get_nan_filled, get_quotient by assumption.
  apply kept_element. now apply div_half_finite, element_doubles.
Qed.

Lemma deconvolve_noop (m : nat) : deconvolve observed kernel (S m) = Ok observed.
Proof.
  induction m as [|m IH].
  - unfold deconvolve. cbn [Nat.iter mbind outcome_bind]. rewrite Hsym.
    apply first_update_noop.
  - rewrite deconvolve_succ, IH. cbn [mbind outcome_bind]. rewrite Hsym.
    apply later_update_noop.
Qed.

End NoOpConvolution.

(** ** Flat images *)

Lemma quotient_flat (sh : nat * nat) (a b : float) :
  quotient (flat sh a) (flat sh b) = flat sh (a / b)%float.
Proof.
  unfold quotient. change (shape (flat sh a)) with sh. unfold flat at 3.
  apply tabulate_ext. intros i j Hi Hj. now rewrite !get_flat.
Qed.

Lemma Forall_data_flat (P : float -> Prop) (sh : nat * nat) (c : float) :
  P c -> Forall P (data (flat sh c)).
Proof.
  intros Hc. apply Forall_forall. intros v Hv.
  apply list_elem_of_In, in_map_iff in Hv as (k & <- & _). exact Hc.
Qed.

(** ** The backend by direct summation on single elements *)

Lemma is_finite_filled (v : float) : is_finite (filled v) = true.
Proof. unfold filled. now destruct (is_finite v) eqn:H. Qed.

(** * The claims *)

(** Closed decidable goals are settled by evaluation. *)
Ltac by_compute := refine (bool_decide_unpack _ _); vm_compute; exact I.

(** ** C1: the loop is the n-fold update *)

(** C1: for every observed image, kernel and iteration count [n], and
    whatever numbers the FFT backend computes, [RL_Deconvolve] returns the
    result of applying the specification's update
    [estimate <- estimate * conv(observed / conv(estimate, kernel), kernel_flipped)],
    element by element, exactly [n] times, starting from the array of
    [observed]'s shape whose elements are all 0.5, with the kernel reversed
    along both axes as [kernel_flipped].  Where an update raises, the call
    raises the same exception.  A call that returns has made its [2 n]
    convolutions after the rotation: the loop does not stop early.  Every
    convolution is a call of [convolve_fft] with [boundary='wrap'],
    [crop=False], [nan_treatment='fill'] and [normalize_kernel=False]: it
    returns, uncropped, on the larger of the two shapes, what the backend
    computes for a periodic boundary, NaN filling and a kernel that is not
    renormalized, and raises ValueError where the backend fails. *)
Theorem RL_Deconvolve_iterates_update `{L : FFTBackend} (w : world)
    (image psf : aref) (observed kernel : ndarray) (n : Z) :
  heap_wf w ->
  value_of image w = Some observed ->
  value_of psf w = Some kernel ->
  returned (RL_Deconvolve image psf n) w =
    Nat.iter (Z.to_nat n)
      (fun estimate => estimate ≫= update observed kernel (reversed kernel))
      (Ok (flat (shape observed) half)) /\
  (forall r, returned (RL_Deconvolve image psf n) w = Ok r ->
     length (new_events w (snd (RL_Deconvolve image psf n w))) =
     1 + 2 * Z.to_nat n) /\
  Forall (fun e => is_rot90 e = false ->
                   keywords e = Some (BoundaryWrap, false, NanFill, false))
    (new_events w (snd (RL_Deconvolve image psf n w))) /\
  (forall a k,
     conv a k =
     match rifft BoundaryWrap NanFill false a k with
     | Some r => Ok (tabulate (newshape (shape a) (shape k)) r)
     | None => Raise ValueError
     end).
Proof.
  intros Hwf Hi Hp.
  pose proof (value_of_rot_ref psf w kernel Hwf Hp) as Hr.
  split; [exact (RL_Deconvolve_returned w image psf observed kernel n Hwf Hi Hp)|].
  destruct (RL_Deconvolve_final_world w image psf observed kernel _ n Hi Hp Hr)
    as (o & content & evs & Hrun & Hevs & _ & Hok).
  split; [|split; [|intros a k; unfold conv, convolve_fft;
                    now destruct (rifft _ _ _ a k)]].
  - intros r. unfold returned. rewrite Hrun.
    destruct o as [new|e]; cbn [mbind outcome_bind snd]; [|discriminate].
    intros _. destruct w as [h tr]. rewrite new_events_app. cbn [length].
    rewrite <- (length_map kernel_used), (Hok new eq_refl).
    now rewrite length_concat_replicate_pair.
  - rewrite Hrun. cbn [snd]. destruct w as [h tr]. rewrite new_events_app.
    constructor; [discriminate|]. rewrite Hevs.
    eapply Forall_impl; [apply loop_keywords|]. now intros e He _.
Qed.

Lemma RL_Deconvolve_iterates_update_witness :
  (returned (RL_Deconvolve (L := direct_backend) image_ref psf_ref 2)
     (world_of pair12 left_impulse) =
     Nat.iter (Z.to_nat 2)
       (fun estimate =>
          estimate ≫= update (L := direct_backend) pair12 left_impulse
                        (reversed left_impulse))
       (Ok (flat (shape pair12) half)) /\
   (forall r,
      returned (RL_Deconvolve (L := direct_backend) image_ref psf_ref 2)
        (world_of pair12 left_impulse) = Ok r ->
      length (new_events (world_of pair12 left_impulse)
                (snd (RL_Deconvolve (L := direct_backend) image_ref psf_ref 2
                        (world_of pair12 left_impulse)))) =
      1 + 2 * Z.to_nat 2) /\
   Forall (fun e => is_rot90 e = false ->
                    keywords e = Some (BoundaryWrap, false, NanFill, false))
     (new_events (world_of pair12 left_impulse)
        (snd (RL_Deconvolve (L := direct_backend) image_ref psf_ref 2
                (world_of pair12 left_impulse)))) /\
   (forall a k,
      conv (L := direct_backend) a k =
      match rifft (FFTBackend := direct_backend) BoundaryWrap NanFill false a k with
      | Some r => Ok (tabulate (newshape (shape a) (shape k)) r)
      | None => Raise ValueError
      end)) /\
  reversed left_impulse = of_list (1, 2) [0; 1]%float /\
  returned (RL_Deconvolve (L := direct_backend) image_ref psf_ref 2)
    (world_of pair12 left_impulse) = Ok (of_list (1, 2) [0.5; 4]%float).
Proof.
  split; [|split; by_compute].
  apply (RL_Deconvolve_iterates_update (L := direct_backend)
           (world_of pair12 left_impulse) image_ref psf_ref pair12 left_impulse 2).
  - by_compute.
  - reflexivity.
  - reflexivity.
Defined.

(** ** C7 and C10: no iteration *)

(** C7: with [iterations = 0] the call returns the initial uniform estimate,
    an array of the observed image's shape whose elements are all 0.5; no
    update is applied (no convolution is computed). *)
Theorem RL_Deconvolve_zero_iterations `{L : FFTBackend} (w : world)
    (image psf : aref) (observed : ndarray) :
  value_of image w = Some observed ->
  returned (RL_Deconvolve image psf 0) w = Ok (flat (shape observed) half) /\
  new_events w (snd (RL_Deconvolve image psf 0 w)) = [EvRot90 psf].
Proof.
  intros Hi. split.
  - now apply returned_nonpos.
  - rewrite (RL_Deconvolve_nonpos_run w image psf observed 0) by (lia || exact Hi).
    destruct w as [h tr]. apply new_events_app.
Qed.

Lemma RL_Deconvolve_zero_iterations_witness :
  returned (RL_Deconvolve (L := direct_backend) image_ref psf_ref 0)
    (world_of A4 K1) = Ok (flat (1, 1) half) /\
  new_events (world_of A4 K1)
    (snd (RL_Deconvolve (L := direct_backend) image_ref psf_ref 0 (world_of A4 K1))) =
    [EvRot90 psf_ref].
Proof.
  apply (RL_Deconvolve_zero_iterations (L := direct_backend)
           (world_of A4 K1) image_ref psf_ref A4).
  reflexivity.
Defined.

(** C10: for every iteration count [n_iter <= 0], negative ones included,
    [RL_Deconvolve] does not raise: the loop body runs zero times (the only
    library call is the rotation of the kernel) and the call returns the
    uniform 0.5-valued array of the observed image's shape. *)
Theorem RL_Deconvolve_nonpositive_iterations `{L : FFTBackend} (w : world)
    (image psf : aref) (observed : ndarray) (n_iter : Z) :
  (n_iter <= 0)%Z ->
  value_of image w = Some observed ->
  returned (RL_Deconvolve image psf n_iter) w = Ok (flat (shape observed) half) /\
  new_events w (snd (RL_Deconvolve image psf n_iter w)) = [EvRot90 psf].
Proof.
  intros Hn Hi. split.
  - now apply returned_nonpos.
  - rewrite (RL_Deconvolve_nonpos_run w image psf observed n_iter Hn Hi).
    destruct w as [h tr]. apply new_events_app.
Qed.

Lemma RL_Deconvolve_nonpositive_iterations_witness :
  returned (RL_Deconvolve (L := direct_backend) image_ref psf_ref (-3))
    (world_of A4 K1) = Ok (flat (1, 1) half) /\
  new_events (world_of A4 K1)
    (snd (RL_Deconvolve (L := direct_backend) image_ref psf_ref (-3) (world_of A4 K1))) =
    [EvRot90 psf_ref].
Proof.
  apply (RL_Deconvolve_nonpositive_iterations (L := direct_backend)
           (world_of A4 K1) image_ref psf_ref A4 (-3)).
  - lia.
  - reflexivity.
Defined.

(** ** C5: feeding the output back for zero iterations *)

(** C5, as stated, fails: after one iteration on [[4]] with the kernel [[1]]
    the output is [[4]]; fed back as the observed image for 0 iterations,
    the second call returns [[0.5]], not [[4]]. *)
Lemma feed_back_zero_iterations_counterexample :
  exists r w1,
    RL_Deconvolve (L := direct_backend) image_ref psf_ref 1 (world_of A4 K1) =
      (Ok r, w1) /\
    value_of r w1 = Some A4 /\
    returned (RL_Deconvolve (L := direct_backend) r psf_ref 0) w1 =
      Ok (of_list (1, 1) [0.5%float]) /\
    returned (RL_Deconvolve (L := direct_backend) r psf_ref 0) w1 <> Ok A4.
Proof.
  eexists _, _. split; [vm_compute; reflexivity|].
  split; [by_compute|]. split; by_compute.
Qed.

(** C5, amended: after a run of [N] iterations that returns the array [out],
    a second call with [out] as the observed image, the same kernel and 0
    iterations returns the uniform 0.5-valued array of [out]'s shape,
    whatever the elements of [out]; the fed-back array itself is left
    unchanged by the second call. *)
Theorem feed_back_zero_iterations `{L : FFTBackend} (w w1 : world)
    (image psf r : aref) (observed kernel : ndarray) (N : Z) :
  heap_wf w ->
  value_of image w = Some observed ->
  value_of psf w = Some kernel ->
  RL_Deconvolve image psf N w = (Ok r, w1) ->
  exists out,
    deconvolve observed kernel (Z.to_nat N) = Ok out /\
    value_of r w1 = Some out /\
    returned (RL_Deconvolve r psf 0) w1 = Ok (flat (shape out) half) /\
    value_of r (snd (RL_Deconvolve r psf 0 w1)) = Some out.
Proof.
  intros Hwf Hi Hp Hrun.
  pose proof (RL_Deconvolve_returned w image psf observed kernel N Hwf Hi Hp) as Hret.
  unfold returned in Hret. rewrite Hrun in Hret. unfold load in Hret.
  destruct (value_of r w1) as [out|] eqn:Hout.
  - exists out. simpl in Hret. repeat split; try easy.
    + now apply returned_nonpos.
    + rewrite (RL_Deconvolve_nonpos_run w1 r psf out 0) by (lia || exact Hout).
      cbn [snd]. rewrite value_of_insert_ne; [exact Hout|].
      intros Heq. apply (is_fresh (dom (heap w1))). rewrite Heq.
      eapply value_of_base_some, Hout.
  - exfalso.
    pose proof (value_of_rot_ref psf w kernel Hwf Hp) as Hr.
    rewrite (RL_Deconvolve_run image psf N w observed kernel _ Hi Hp Hr) in Hrun.
    cbv zeta in Hrun.
    destruct (loop_pure observed kernel (rot90_2 kernel) (Z.to_nat N) _)
      as [[o content] evs].
    destruct o as [new|e]; simpl in Hrun; [|discriminate].
    injection Hrun as <- <-.
    now rewrite value_of_insert_eq in Hout.
Qed.

Lemma feed_back_zero_iterations_witness :
  exists out,
    deconvolve (L := direct_backend) A4 K1 (Z.to_nat 3) = Ok out /\
    value_of (ARef 3%positive false)
      (snd (RL_Deconvolve (L := direct_backend) image_ref psf_ref 3 (world_of A4 K1))) =
      Some out /\
    returned (RL_Deconvolve (L := direct_backend) (ARef 3%positive false) psf_ref 0)
      (snd (RL_Deconvolve (L := direct_backend) image_ref psf_ref 3 (world_of A4 K1))) =
      Ok (flat (shape out) half) /\
    value_of (ARef 3%positive false)
      (snd (RL_Deconvolve (L := direct_backend) (ARef 3%positive false) psf_ref 0
              (snd (RL_Deconvolve (L := direct_backend) image_ref psf_ref 3
                      (world_of A4 K1))))) = Some out.
Proof.
  apply (feed_back_zero_iterations (L := direct_backend)
           (world_of A4 K1) _ image_ref psf_ref _ A4 K1 3).
  - by_compute.
  - reflexivity.
  - reflexivity.
  - vm_compute. reflexivity.
Defined.

(** ** C8: the kernel is rotated once, before the loop *)

(** C8: in every call the kernel is rotated by 180 degrees exactly once,
    before the loop: the call's first library call is [np.rot90(psf, 2)] and
    no later one is a rotation.  The rotated kernel has the kernel's shape
    and is the kernel reversed along both axes: its element [(i, j)] is the
    kernel's element [(rows - 1 - i, cols - 1 - j)].  The convolutions of
    the iterations use, in turn, the kernel and that one flipped kernel,
    which is the same in every iteration and is still intact, like the
    kernel, when the call ends. *)
Theorem kernel_rotated_once `{L : FFTBackend} (w : world) (image psf : aref)
    (observed kernel : ndarray) (n : Z) :
  heap_wf w ->
  value_of image w = Some observed ->
  value_of psf w = Some kernel ->
  exists evs,
    new_events w (snd (RL_Deconvolve image psf n w)) = EvRot90 psf :: evs /\
    Forall (fun e => is_rot90 e = false) evs /\
    shape (rot90_2 kernel) = shape kernel /\
    (forall i j, i < rows kernel -> j < cols kernel ->
       get (rot90_2 kernel) i j = get kernel (rows kernel - 1 - i) (cols kernel - 1 - j)) /\
    map kernel_used evs `prefix_of`
      concat (replicate (Z.to_nat n) [Some kernel; Some (rot90_2 kernel)]) /\
    (forall r, fst (RL_Deconvolve image psf n w) = Ok r ->
       map kernel_used evs =
       concat (replicate (Z.to_nat n) [Some kernel; Some (rot90_2 kernel)])) /\
    value_of psf (snd (RL_Deconvolve image psf n w)) = Some kernel /\
    value_of (rot_ref psf) (snd (RL_Deconvolve image psf n w)) =
      Some (rot90_2 kernel).
Proof.
  intros Hwf Hi Hp.
  pose proof (value_of_rot_ref psf w kernel Hwf Hp) as Hr.
  destruct (RL_Deconvolve_final_world w image psf observed kernel _ n Hi Hp Hr)
    as (o & content & evs & Hrun & _ & Hpre & Hok).
  exists evs. rewrite Hrun. cbn [fst snd].
  split; [destruct w; apply new_events_app|].
  split.
  { rewrite concat_replicate_some in Hpre.
    eapply Forall_impl; [exact (kernels_no_other_event _ _ Hpre)|].
    now intros e [He _]. }
  split; [reflexivity|].
  split; [intros i j; apply get_rot90_2|].
  split; [exact Hpre|].
  split.
  { intros r Hr'. destruct o as [new|e]; [now apply (Hok new) | discriminate]. }
  split; now apply value_of_insert_fresh.
Qed.

Lemma kernel_rotated_once_witness :
  (exists evs,
    new_events (world_of pair12 left_impulse)
      (snd (RL_Deconvolve (L := direct_backend) image_ref psf_ref 2
              (world_of pair12 left_impulse))) = EvRot90 psf_ref :: evs /\
    Forall (fun e => is_rot90 e = false) evs /\
    shape (rot90_2 left_impulse) = shape left_impulse /\
    (forall i j, i < rows left_impulse -> j < cols left_impulse ->
       get (rot90_2 left_impulse) i j =
       get left_impulse (rows left_impulse - 1 - i) (cols left_impulse - 1 - j)) /\
    map kernel_used evs `prefix_of`
      concat (replicate (Z.to_nat 2) [Some left_impulse; Some (rot90_2 left_impulse)]) /\
    (forall r,
       fst (RL_Deconvolve (L := direct_backend) image_ref psf_ref 2
              (world_of pair12 left_impulse)) = Ok r ->
       map kernel_used evs =
       concat (replicate (Z.to_nat 2) [Some left_impulse; Some (rot90_2 left_impulse)])) /\
    value_of psf_ref
      (snd (RL_Deconvolve (L := direct_backend) image_ref psf_ref 2
              (world_of pair12 left_impulse))) = Some left_impulse /\
    value_of (rot_ref psf_ref)
      (snd (RL_Deconvolve (L := direct_backend) image_ref psf_ref 2
              (world_of pair12 left_impulse))) = Some (rot90_2 left_impulse)) /\
  rot90_2 left_impulse = of_list (1, 2) [0; 1]%float /\
  rot90_2 left_impulse <> left_impulse.
Proof.
  split; [|split; by_compute].
  apply (kernel_rotated_once (L := direct_backend)
           (world_of pair12 left_impulse) image_ref psf_ref pair12 left_impulse 2).
  - by_compute.
  - reflexivity.
  - reflexivity.
Defined.

(** ** C9: the inputs are left alone *)

(** C9: after every call the observed image and the kernel hold the values
    they held before; the heap differs from the one before the call only by
    the new working array the call returns, and every array that existed
    before is unchanged; the call prints nothing. *)
Theorem inputs_unchanged `{L : FFTBackend} (w : world) (image psf : aref)
    (observed kernel : ndarray) (n : Z) :
  value_of image w = Some observed ->
  value_of psf w = Some kernel ->
  value_of image (snd (RL_Deconvolve image psf n w)) = Some observed /\
  value_of psf (snd (RL_Deconvolve image psf n w)) = Some kernel /\
  (exists content,
     heap (snd (RL_Deconvolve image psf n w)) =
     <[fresh (dom (heap w)) := content]> (heap w)) /\
  (forall l, l ∈ dom (heap w) ->
     heap (snd (RL_Deconvolve image psf n w)) !! l = heap w !! l) /\
  Forall (fun e => is_print e = false)
    (new_events w (snd (RL_Deconvolve image psf n w))).
Proof.
  intros Hi Hp.
  destruct (value_of_rot_ref_some psf w kernel Hp) as [kerf Hr].
  destruct (RL_Deconvolve_final_world w image psf observed kernel kerf n Hi Hp Hr)
    as (o & content & evs & Hrun & _ & Hpre & _).
  rewrite Hrun. cbn [fst snd heap].
  split; [now apply value_of_insert_fresh|].
  split; [now apply value_of_insert_fresh|].
  split; [now exists content|].
  split.
  { intros l Hl. apply lookup_insert_ne. intros <-.
    now apply (is_fresh (dom (heap w))). }
  destruct w as [h tr]. rewrite new_events_app. constructor; [reflexivity|].
  rewrite concat_replicate_some in Hpre.
  eapply Forall_impl; [exact (kernels_no_other_event _ _ Hpre)|].
  now intros e [_ He].
Qed.

Lemma inputs_unchanged_witness :
  value_of image_ref
    (snd (RL_Deconvolve (L := direct_backend) image_ref psf_ref 2 (world_of A4 K1))) =
    Some A4 /\
  value_of psf_ref
    (snd (RL_Deconvolve (L := direct_backend) image_ref psf_ref 2 (world_of A4 K1))) =
    Some K1 /\
  (exists content,
     heap (snd (RL_Deconvolve (L := direct_backend) image_ref psf_ref 2 (world_of A4 K1))) =
     <[fresh (dom (heap (world_of A4 K1))) := content]> (heap (world_of A4 K1))) /\
  (forall l, l ∈ dom (heap (world_of A4 K1)) ->
     heap (snd (RL_Deconvolve (L := direct_backend) image_ref psf_ref 2 (world_of A4 K1)))
       !! l = heap (world_of A4 K1) !! l) /\
  Forall (fun e => is_print e = false)
    (new_events (world_of A4 K1)
       (snd (RL_Deconvolve (L := direct_backend) image_ref psf_ref 2 (world_of A4 K1)))).
Proof.
  apply (inputs_unchanged (L := direct_backend)
           (world_of A4 K1) image_ref psf_ref A4 K1 2).
  - reflexivity.
  - reflexivity.
Defined.

(** ** C3: the shape of the result *)

(** C3: for an observed image and a kernel of one shape [(H, W)] and every
    iteration count, the array the call returns has shape [(H, W)] and as
    many elements.  With equal shapes the division and the in-place product
    cannot fail: the call returns such an array unless one of its
    convolutions raises, in which case the call raises that ValueError. *)
Theorem result_has_shape_of_observed `{L : FFTBackend} (w : world)
    (image psf : aref) (observed kernel : ndarray) (H W : nat) (n : Z) :
  heap_wf w ->
  value_of image w = Some observed ->
  value_of psf w = Some kernel ->
  shape observed = (H, W) ->
  shape kernel = (H, W) ->
  match returned (RL_Deconvolve image psf n) w with
  | Ok r => shape r = (H, W) /\ wf r
  | Raise e =>
      e = ValueError /\ (0 < n)%Z /\
      exists a k, shape a = (H, W) /\ shape k = (H, W) /\ conv a k = Raise e
  end.
Proof.
  intros Hwf Hi Hp Ho Hk.
  rewrite (RL_Deconvolve_returned w image psf observed kernel n Hwf Hi Hp).
  pose proof (deconvolve_fits observed kernel (Z.to_nat n)) as Hs.
  unfold rows, cols in Hs. rewrite Ho, Hk in Hs.
  specialize (Hs (le_n _) (le_n _)).
  destruct (deconvolve observed kernel (Z.to_nat n)) as [r|e].
  - exact Hs.
  - destruct Hs as (-> & Hn & a & k & Ha & Hk' & Hc).
    split; [reflexivity|]. split; [lia|]. now exists a, k.
Qed.

Lemma result_has_shape_of_observed_witness :
  match returned (RL_Deconvolve (L := direct_backend) image_ref psf_ref 2)
          (world_of pair12 left_impulse) with
  | Ok r => shape r = (1, 2) /\ wf r
  | Raise e =>
      e = ValueError /\ (0 < 2)%Z /\
      exists a k, shape a = (1, 2) /\ shape k = (1, 2) /\
                  conv (L := direct_backend) a k = Raise e
  end.
Proof.
  apply (result_has_shape_of_observed (L := direct_backend)
           (world_of pair12 left_impulse) image_ref psf_ref pair12 left_impulse 1 2 2).
  - by_compute.
  - reflexivity.
  - reflexivity.
  - reflexivity.
  - reflexivity.
Defined.

(** ** C4: division by a zero of the blurred estimate *)

(** C4, as stated, fails: the quotient's NaN need not reach the result.  For
    the observed image [[0]] and the kernel [[1]] the estimate after one
    iteration is [[0]]; in the second iteration the blurred estimate is
    [[0]] and the quotient 0 / 0 is NaN, yet the call returns [[0]], an
    array without NaN or infinity: called with [nan_treatment='fill'], the
    second convolution replaced the NaN by the fill value.  For the image
    [[2^1023]] and the kernel [[4]], whose second blurred estimate is [[0]]
    too, the call returns [[nan]]. *)
Lemma nan_does_not_propagate_counterexample :
  deconvolve (L := direct_backend) A0 K1 1 = Ok A0 /\
  conv (L := direct_backend) A0 K1 = Ok A0 /\
  np_divide A0 A0 = Ok Anan /\
  returned (RL_Deconvolve (L := direct_backend) image_ref psf_ref 2) (world_of A0 K1) =
    Ok A0 /\
  all_finite A0 /\
  returned (RL_Deconvolve (L := direct_backend) image_ref psf_ref 2)
    (world_of Ahuge K4) = Ok Anan.
Proof.
  repeat split; by_compute.
Qed.

(** C4, amended: where an element of the blurred estimate is zero, the
    element-wise division of the loop does not raise; the quotient is the
    plain float64 quotient (no guard, clamp or epsilon on the denominator)
    and is an infinity or NaN at that element; as it is, the quotient is
    handed to the second convolution, which is called with
    [nan_treatment='fill'].  Whether such an element shows in the returned
    array is up to that convolution: it need not.  (The kernel is taken to
    fit into the image, so that the division is one of arrays of one
    shape.) *)
Theorem zero_denominator_is_divided_as_is `{L : FFTBackend} (w : world)
    (image psf : aref) (observed kernel : ndarray) (n : Z)
    (k : nat) (estimate blurred : ndarray) :
  heap_wf w ->
  value_of image w = Some observed ->
  value_of psf w = Some kernel ->
  rows kernel <= rows observed -> cols kernel <= cols observed ->
  k < Z.to_nat n ->
  deconvolve observed kernel k = Ok estimate ->
  conv estimate kernel = Ok blurred ->
  new_events w (snd (RL_Deconvolve image psf n w)) !! (2 * k + 2) =
    Some (EvConvolveFFT (quotient observed blurred) (rot90_2 kernel)
            BoundaryWrap false NanFill false) /\
  forall i j, i < rows observed -> j < cols observed ->
    get (quotient observed blurred) i j = (get observed i j / get blurred i j)%float /\
    (is_zero (get blurred i j) = true ->
     is_finite (get (quotient observed blurred) i j) = false).
Proof.
  intros Hwf Hi Hp Hkr Hkc Hk Hest Hb.
  pose proof (value_of_rot_ref psf w kernel Hwf Hp) as Hr.
  assert (Hsb : shape blurred = shape observed).
  { pose proof (deconvolve_fits observed kernel k Hkr Hkc) as Hs.
    rewrite Hest in Hs. destruct Hs as [Hs _].
    destruct (conv_shape _ _ _ Hb) as [Hsb _].
    now rewrite Hs, newshape_fits in Hsb. }
  split.
  - destruct (RL_Deconvolve_final_world w image psf observed kernel _ n Hi Hp Hr)
      as (o & content & evs & Hrun & Hevs & _).
    rewrite Hrun. cbn [snd]. destruct w as [h tr]. rewrite new_events_app.
    replace (2 * k + 2) with (S (2 * k + 1)) by lia. cbn [lookup list_lookup].
    rewrite Hevs.
    apply (loop_second_call observed kernel (rot90_2 kernel) (Z.to_nat n) k
             (flat (shape observed) half) estimate blurred); try assumption.
    + rewrite rot90_2_reversed. exact Hest.
    + apply np_divide_same_shape. now rewrite Hsb.
  - intros i j Hi' Hj'. rewrite get_quotient by assumption.
    split; [reflexivity|]. apply div_zero_not_finite.
Qed.

Lemma zero_denominator_is_divided_as_is_witness :
  new_events (world_of A0 K1)
    (snd (RL_Deconvolve (L := direct_backend) image_ref psf_ref 2 (world_of A0 K1)))
    !! (2 * 1 + 2) =
    Some (EvConvolveFFT (quotient A0 A0) (rot90_2 K1) BoundaryWrap false NanFill false) /\
  forall i j, i < rows A0 -> j < cols A0 ->
    get (quotient A0 A0) i j = (get A0 i j / get A0 i j)%float /\
    (is_zero (get A0 i j) = true -> is_finite (get (quotient A0 A0) i j) = false).
Proof.
  apply (zero_denominator_is_divided_as_is (L := direct_backend)
           (world_of A0 K1) image_ref psf_ref A0 K1 2 1 A0 A0).
  - by_compute.
  - reflexivity.
  - reflexivity.
  - vm_compute. lia.
  - vm_compute. lia.
  - vm_compute. lia.
  - by_compute.
  - by_compute.
Defined.

(** ** C2: the identity kernel *)




(** ** C6: a flat image under a normalized kernel *)




(** * Further properties of the code *)

(** ** The kernel against the image: which calls can fail *)

(** X1: with a kernel that fits into the image the division and the
    in-place product are between arrays of one shape and do not fail: the
    call returns an array of the observed image's shape, with as many
    elements, unless one of its convolutions raises, in which case the call
    raises that ValueError. *)
Theorem kernel_that_fits_fails_only_in_convolve `{L : FFTBackend} (w : world)
    (image psf : aref) (observed kernel : ndarray) (n : Z) :
  heap_wf w ->
  value_of image w = Some observed ->
  value_of psf w = Some kernel ->
  rows kernel <= rows observed -> cols kernel <= cols observed ->
  match returned (RL_Deconvolve image psf n) w with
  | Ok r => shape r = shape observed /\ wf r
  | Raise e =>
      e = ValueError /\ (0 < n)%Z /\
      exists a k, shape a = shape observed /\ shape k = shape kernel /\
                  conv a k = Raise e
  end.
Proof.
  intros Hwf Hi Hp Hr Hc.
  rewrite (RL_Deconvolve_returned w image psf observed kernel n Hwf Hi Hp).
  pose proof (deconvolve_fits observed kernel (Z.to_nat n) Hr Hc) as Hs.
  destruct (deconvolve observed kernel (Z.to_nat n)) as [r|e].
  - exact Hs.
  - destruct Hs as (-> & Hn & a & k & Ha & Hk & Hcv).
    split; [reflexivity|]. split; [lia|]. now exists a, k.
Qed.

Lemma kernel_that_fits_fails_only_in_convolve_witness :
  match returned (RL_Deconvolve (L := direct_backend) image_ref psf_ref 2)
          (world_of square22 left_impulse) with
  | Ok r => shape r = shape square22 /\ wf r
  | Raise e =>
      e = ValueError /\ (0 < 2)%Z /\
      exists a k, shape a = shape square22 /\ shape k = shape left_impulse /\
                  conv (L := direct_backend) a k = Raise e
  end.
Proof.
  apply (kernel_that_fits_fails_only_in_convolve (L := direct_backend)
           (world_of square22 left_impulse) image_ref psf_ref square22 left_impulse 2).
  - by_compute.
  - reflexivity.
  - reflexivity.
  - vm_compute. lia.
  - vm_compute. lia.
Defined.

(** X2: when the kernel is larger than a non-empty image on some axis, a
    call with at least one iteration raises ValueError: the uncropped
    convolution has the kernel's size on that axis, and the quotient or the
    in-place product no longer fits the working array. *)
Theorem kernel_too_large_raises `{L : FFTBackend} (w : world) (image psf : aref)
    (observed kernel : ndarray) (n : Z) :
  heap_wf w ->
  value_of image w = Some observed ->
  value_of psf w = Some kernel ->
  (1 <= n)%Z ->
  (1 <= rows observed /\ rows observed < rows kernel) \/
  (1 <= cols observed /\ cols observed < cols kernel) ->
  returned (RL_Deconvolve image psf n) w = Raise ValueError.
Proof.
  intros Hwf Hi Hp Hn Hbig.
  rewrite (RL_Deconvolve_returned w image psf observed kernel n Hwf Hi Hp).
  replace (Z.to_nat n) with (S (Z.to_nat n - 1)) by lia.
  now apply deconvolve_too_large.
Qed.

Lemma kernel_too_large_raises_witness :
  returned (RL_Deconvolve (L := direct_backend) image_ref psf_ref 3)
    (world_of A4 box3) = Raise ValueError.
Proof.
  apply (kernel_too_large_raises (L := direct_backend)
           (world_of A4 box3) image_ref psf_ref A4 box3 3).
  - by_compute.
  - reflexivity.
  - reflexivity.
  - lia.
  - left. vm_compute. lia.
Defined.

(** ** Calling twice *)

(** X5: the array a call returns is a new object, outside the heap the call
    started from; calling again with the same arguments returns an equal
    array in another new object and leaves the first result as it was. *)
Theorem second_call_is_independent `{L : FFTBackend} (w w1 : world)
    (image psf r1 : aref) (observed kernel : ndarray) (n : Z) :
  heap_wf w ->
  value_of image w = Some observed ->
  value_of psf w = Some kernel ->
  RL_Deconvolve image psf n w = (Ok r1, w1) ->
  exists r2 w2 out,
    RL_Deconvolve image psf n w1 = (Ok r2, w2) /\
    (base r1 ∉ dom (heap w)) /\
    (base r2 ∉ dom (heap w1)) /\
    base r2 <> base r1 /\
    value_of r1 w1 = Some out /\
    value_of r2 w2 = Some out /\
    value_of r1 w2 = Some out.
Proof.
  intros Hwf Hi Hp Hrun.
  pose proof (value_of_rot_ref psf w kernel Hwf Hp) as Hr.
  pose proof (RL_Deconvolve_run image psf n w observed kernel _ Hi Hp Hr) as Hrun1.
  cbv zeta in Hrun1.
  pose proof (loop_pure_content_wf observed kernel (rot90_2 kernel) (Z.to_nat n)
                (flat (shape observed) half)) as Hcwf.
  pose proof (loop_pure_content observed kernel (rot90_2 kernel) (Z.to_nat n)
                (flat (shape observed) half)) as Hcont.
  rewrite Hrun in Hrun1.
  remember (loop_pure observed kernel (rot90_2 kernel) (Z.to_nat n)
              (flat (shape observed) half)) as res eqn:Hres.
  destruct res as [[o content] evs]. cbn [fst snd] in Hcwf, Hcont.
  destruct o as [new|e]; cbn [mbind outcome_bind] in Hrun1; [|discriminate].
  injection Hrun1 as -> ->.
  specialize (Hcont new eq_refl). subst content.
  assert (Hnew : wf new) by (apply Hcwf, wf_tabulate).
  set (l := fresh (dom (heap w))) in *.
  set (w1 := World (<[l := new]> (heap w)) (trace w ++ EvRot90 psf :: evs)).
  assert (Hwf1 : heap_wf w1) by now apply heap_wf_insert.
  assert (Hi1 : value_of image w1 = Some observed)
    by now apply value_of_insert_fresh.
  assert (Hp1 : value_of psf w1 = Some kernel)
    by now apply value_of_insert_fresh.
  pose proof (value_of_rot_ref psf w1 kernel Hwf1 Hp1) as Hr1.
  pose proof (RL_Deconvolve_run image psf n w1 observed kernel _ Hi1 Hp1 Hr1) as Hrun2.
  cbv zeta in Hrun2. rewrite <- Hres in Hrun2. cbn [mbind outcome_bind] in Hrun2.
  assert (Hl1 : value_of (ARef l false) w1 = Some new)
    by apply value_of_insert_eq.
  eexists _, _, new. split; [exact Hrun2|]. cbn [base].
  split; [apply is_fresh|]. split; [apply is_fresh|].
  split.
  { intros Heq. apply (is_fresh (dom (heap w1))). rewrite Heq.
    unfold w1. cbn [heap]. rewrite dom_insert_L. set_solver. }
  split; [exact Hl1|]. split; [apply value_of_insert_eq|].
  now apply value_of_insert_fresh.
Qed.

Lemma second_call_is_independent_witness :
  exists r2 w2 out,
    RL_Deconvolve (L := direct_backend) image_ref psf_ref 2
      (snd (RL_Deconvolve (L := direct_backend) image_ref psf_ref 2 (world_of A4 K1))) =
      (Ok r2, w2) /\
    (base (ARef 3%positive false) ∉ dom (heap (world_of A4 K1))) /\
    (base r2 ∉ dom (heap (snd (RL_Deconvolve (L := direct_backend) image_ref psf_ref 2
                                 (world_of A4 K1))))) /\
    base r2 <> base (ARef 3%positive false) /\
    value_of (ARef 3%positive false)
      (snd (RL_Deconvolve (L := direct_backend) image_ref psf_ref 2 (world_of A4 K1))) =
      Some out /\
    value_of r2 w2 = Some out /\
    value_of (ARef 3%positive false) w2 = Some out.
Proof.
  apply (second_call_is_independent (L := direct_backend)
           (world_of A4 K1) _ image_ref psf_ref _ A4 K1 2).
  - by_compute.
  - reflexivity.
  - reflexivity.
  - vm_compute. reflexivity.
Defined.
